(** * ASTRAL_NOTES: the workspace engine edited by the patch scripts

    The repository's Python scripts carry, as replacement texts, the
    TypeScript methods of [projectService.ts] (project / story / character
    CRUD over a persisted snapshot) and of [aiWritingCompanion.ts] (writing
    sessions and the AI personality registry).  This development embeds
    those methods as state-passing functions over an explicit [World] and
    proves the properties the specification states about them. *)

From Stdlib Require Import ZArith Lia Ascii.
From stdpp Require Import base option list strings pretty.

Local Open Scope string_scope.
Local Open Scope list_scope.

(** ** Data model *)

(** [new Date().toISOString()] is kept as the instant it denotes, in
    milliseconds; on ISO strings of equal length the lexicographic order is
    the order of the instants. [Date.now()] is the same number. *)
Definition Timestamp := Z.
Bind Scope Z_scope with Timestamp.

Module Story.
Record t := mk {
  id : string;
  title : string;
  description : string;
  projectId : string;
  content : string;
  wordCount : Z;
  type : string;
  createdAt : Timestamp;
  updatedAt : Timestamp;
  isArchived : bool;
  order : Z
}.

(** [updates: any], restricted to the fields of a story: a field that is
    [None] is absent from the object that is spread. *)
Record updates := mkUpdates {
  u_id : option string;
  u_title : option string;
  u_description : option string;
  u_projectId : option string;
  u_content : option string;
  u_wordCount : option Z;
  u_type : option string;
  u_createdAt : option Timestamp;
  u_updatedAt : option Timestamp;
  u_isArchived : option bool;
  u_order : option Z
}.

Definition no_updates : updates :=
  mkUpdates None None None None None None None None None None None.

(** [{ ...s, ...u }] *)
Definition merge (s : t) (u : updates) : t :=
  {| id := default (id s) (u_id u);
     title := default (title s) (u_title u);
     description := default (description s) (u_description u);
     projectId := default (projectId s) (u_projectId u);
     content := default (content s) (u_content u);
     wordCount := default (wordCount s) (u_wordCount u);
     type := default (type s) (u_type u);
     createdAt := default (createdAt s) (u_createdAt u);
     updatedAt := default (updatedAt s) (u_updatedAt u);
     isArchived := default (isArchived s) (u_isArchived u);
     order := default (order s) (u_order u) |}.

Definition set_updatedAt (ts : Timestamp) (s : t) : t :=
  {| id := id s; title := title s; description := description s;
     projectId := projectId s; content := content s;
     wordCount := wordCount s; type := type s; createdAt := createdAt s;
     updatedAt := ts; isArchived := isArchived s; order := order s |}.
End Story.

Module Character.
Record t := mk {
  id : string;
  name : string;
  description : string;
  projectId : string;
  role : string;
  age : option Z;
  appearance : string;
  personality : string;
  backstory : string;
  goals : string;
  createdAt : Timestamp;
  updatedAt : Timestamp
}.

Record updates := mkUpdates {
  u_id : option string;
  u_name : option string;
  u_description : option string;
  u_projectId : option string;
  u_role : option string;
  u_age : option (option Z);
  u_appearance : option string;
  u_personality : option string;
  u_backstory : option string;
  u_goals : option string;
  u_createdAt : option Timestamp;
  u_updatedAt : option Timestamp
}.

Definition no_updates : updates :=
  mkUpdates None None None None None None None None None None None None.

(** [{ ...c, ...u }] *)
Definition merge (c : t) (u : updates) : t :=
  {| id := default (id c) (u_id u);
     name := default (name c) (u_name u);
     description := default (description c) (u_description u);
     projectId := default (projectId c) (u_projectId u);
     role := default (role c) (u_role u);
     age := default (age c) (u_age u);
     appearance := default (appearance c) (u_appearance u);
     personality := default (personality c) (u_personality u);
     backstory := default (backstory c) (u_backstory u);
     goals := default (goals c) (u_goals u);
     createdAt := default (createdAt c) (u_createdAt u);
     updatedAt := default (updatedAt c) (u_updatedAt u) |}.

Definition set_updatedAt (ts : Timestamp) (c : t) : t :=
  {| id := id c; name := name c; description := description c;
     projectId := projectId c; role := role c; age := age c;
     appearance := appearance c; personality := personality c;
     backstory := backstory c; goals := goals c;
     createdAt := createdAt c; updatedAt := ts |}.
End Character.

Module Project.
(** [stories] and [characters] may be missing on a stored project: the
    methods guard them with [if (project.stories)] and [|| []]. *)
Record t := mk {
  id : string;
  title : string;
  description : string;
  createdAt : Timestamp;
  updatedAt : Timestamp;
  lastEditedAt : Timestamp;
  wordCount : Z;
  stories : option (list Story.t);
  characters : option (list Character.t)
}.

(** [UpdateProjectData]: every field of a project, each one optional. *)
Record data := mkData {
  d_id : option string;
  d_title : option string;
  d_description : option string;
  d_createdAt : option Timestamp;
  d_updatedAt : option Timestamp;
  d_lastEditedAt : option Timestamp;
  d_wordCount : option Z;
  d_stories : option (list Story.t);
  d_characters : option (list Character.t)
}.

Definition no_data : data :=
  mkData None None None None None None None None None.

(** [{ ...p, ...d }] *)
Definition merge (p : t) (d : data) : t :=
  {| id := default (id p) (d_id d);
     title := default (title p) (d_title d);
     description := default (description p) (d_description d);
     createdAt := default (createdAt p) (d_createdAt d);
     updatedAt := default (updatedAt p) (d_updatedAt d);
     lastEditedAt := default (lastEditedAt p) (d_lastEditedAt d);
     wordCount := default (wordCount p) (d_wordCount d);
     stories := match d_stories d with Some l => Some l | None => stories p end;
     characters :=
       match d_characters d with Some l => Some l | None => characters p end |}.

Definition set_updatedAt (ts : Timestamp) (p : t) : t :=
  {| id := id p; title := title p; description := description p;
     createdAt := createdAt p; updatedAt := ts;
     lastEditedAt := lastEditedAt p; wordCount := wordCount p;
     stories := stories p; characters := characters p |}.

Definition set_lastEditedAt (ts : Timestamp) (p : t) : t :=
  {| id := id p; title := title p; description := description p;
     createdAt := createdAt p; updatedAt := updatedAt p;
     lastEditedAt := ts; wordCount := wordCount p;
     stories := stories p; characters := characters p |}.

Definition set_wordCount (n : Z) (p : t) : t :=
  {| id := id p; title := title p; description := description p;
     createdAt := createdAt p; updatedAt := updatedAt p;
     lastEditedAt := lastEditedAt p; wordCount := n;
     stories := stories p; characters := characters p |}.

Definition set_stories (l : list Story.t) (p : t) : t :=
  {| id := id p; title := title p; description := description p;
     createdAt := createdAt p; updatedAt := updatedAt p;
     lastEditedAt := lastEditedAt p; wordCount := wordCount p;
     stories := Some l; characters := characters p |}.

Definition set_characters (l : list Character.t) (p : t) : t :=
  {| id := id p; title := title p; description := description p;
     createdAt := createdAt p; updatedAt := updatedAt p;
     lastEditedAt := lastEditedAt p; wordCount := wordCount p;
     stories := stories p; characters := Some l |}.
End Project.

(** JavaScript truthiness of an optional string: [undefined] and the empty
    string are falsy. *)
Definition truthy (s : option string) : bool :=
  match s with
  | Some v => negb (String.eqb v "")
  | None => false
  end.

(** [s || dflt] on an optional string. *)
Definition or_else (s : option string) (dflt : string) : string :=
  if truthy s then default dflt s else dflt.

(** ** The world the services run in *)

(** The persisted snapshot, a count of the writes to the backend, the log of
    emitted events, and the number of clock readings and of generated
    identifiers consumed so far. *)
Record World := mkWorld {
  storage : list Project.t;
  saves : nat;
  events : list (string * Project.t);
  ticks : nat;
  issued : nat
}.

(** Every method runs to completion on the single thread: a computation is
    a function from the state before to a result and the state after. *)
Definition State (St A : Type) : Type := St -> A * St.

Definition ret {St A} (a : A) : State St A := fun w => (a, w).

Definition bind {St A B} (m : State St A) (k : A -> State St B) : State St B :=
  fun w => let (a, w') := m w in k a w'.

Abbreviation M := (State World).

Notation "'let!' x ':=' c1 'in' c2" := (bind c1 (fun x => c2))
  (at level 10, x name, c1 at level 100, c2 at level 200).
Notation "'do!' c1 'in' c2" := (bind c1 (fun _ => c2))
  (at level 10, c1 at level 100, c2 at level 200).

(** Modelled from the spec: [getAllProjects] and [storageService] are not
    among the patched texts. [loadProjects()] yields the persisted ordered
    sequence of projects, freshly loaded on every call, and
    [saveProjects(snapshot)] replaces it as one write. The backend is the
    local synchronous store; a write that fails would leave the method by
    an exception and is outside this model. *)
Definition getAllProjects : M (list Project.t) :=
  fun w => (storage w, w).

(** Modelled from the spec: [storageService.saveProjects] commits the full
    ordered sequence, replacing the prior state; each call is counted. *)
Definition saveProjects (projects : list Project.t) : M unit :=
  fun w => (tt, {| storage := projects; saves := S (saves w);
                   events := events w; ticks := ticks w;
                   issued := issued w |}).

(** Modelled from the spec: [emit(eventName, payload)] of the embedded event
    bus delivers synchronously; the deliveries are kept as a log. *)
Definition emit (eventName : string) (payload : Project.t) : M unit :=
  fun w => (tt, {| storage := storage w; saves := saves w;
                   events := events w ++ [(eventName, payload)];
                   ticks := ticks w; issued := issued w |}).

(** A [for (let i = 0; i < xs.length; i++)] loop whose body may [return]:
    the body answers [Some v] for [return v] and [None] to fall through to
    the next index. *)
Fixpoint for_loop {St A R} (body : nat -> A -> State St (option R))
    (i : nat) (rest : list A) : State St (option R) :=
  match rest with
  | [] => ret None
  | x :: rest' =>
      let! r := body i x in
      match r with
      | Some v => ret (Some v)
      | None => for_loop body (S i) rest'
      end
  end.

Section ProjectService.

(** The wall clock, as the sequence of its successive readings, and the
    identifiers [this.generateId()] hands out, in order. *)
Variable clock : nat -> Timestamp.
Variable generateId : nat -> string.

(** [this.calculateProjectWordCount(id)] is not among the patched texts:
    any function of the identifier and of the persisted snapshot. *)
Variable calculateProjectWordCount : string -> list Project.t -> Z.

(** [new Date().toISOString()] *)
Definition now : M Timestamp :=
  fun w => (clock (ticks w),
            {| storage := storage w; saves := saves w; events := events w;
               ticks := S (ticks w); issued := issued w |}).

Definition freshId : M string :=
  fun w => (generateId (issued w),
            {| storage := storage w; saves := saves w; events := events w;
               ticks := ticks w; issued := S (issued w) |}).

Definition wordCountOf (id : string) : M Z :=
  fun w => (calculateProjectWordCount id (storage w), w).

(** *** fix_project_service.py, [new_update] *)
Definition updateProjectSync (id : string) (data : Project.data)
    : M (option Project.t) :=
  let! projects := getAllProjects in
  match list_find (λ p, Project.id p = id) projects with
  | None => ret None
  | Some (index, found) =>
      let! t1 := now in
      let! t2 := now in
      let updated :=
        Project.set_lastEditedAt t2
          (Project.set_updatedAt t1 (Project.merge found data)) in
      let! updated :=
        (if truthy (Project.d_title data) || truthy (Project.d_description data)
         then let! n := wordCountOf id in ret (Project.set_wordCount n updated)
         else ret updated) in
      do! saveProjects (<[index := updated]> projects) in
      do! emit "project-updated" updated in
      ret (Some updated)
  end.

(** [{ title: string; description?: string; projectId: string }] *)
Record StoryData := mkStoryData {
  sd_title : string;
  sd_description : option string;
  sd_projectId : string
}.

(** [{ name: string; description?: string; projectId: string }] *)
Record CharacterData := mkCharacterData {
  cd_name : string;
  cd_description : option string;
  cd_projectId : string
}.

(** *** fix_project_service.py, [new_create_story] *)
Definition createStory (data : StoryData) : M Story.t :=
  let! now_ := now in
  let! id := freshId in
  let story :=
    {| Story.id := id;
       Story.title := sd_title data;
       Story.description := or_else (sd_description data) "";
       Story.projectId := sd_projectId data;
       Story.content := "";
       Story.wordCount := 0;
       Story.type := "story";
       Story.createdAt := now_;
       Story.updatedAt := now_;
       Story.isArchived := false;
       Story.order := 0 |} in
  let! projects := getAllProjects in
  match list_find (λ p, Project.id p = sd_projectId data) projects with
  | Some (projectIndex, project) =>
      let stories := default [] (Project.stories project) in
      let project :=
        Project.set_updatedAt now_
          (Project.set_stories (stories ++ [story]) project) in
      do! saveProjects (<[projectIndex := project]> projects) in
      ret story
  | None => ret story
  end.

(** *** fix_project_service.py, [new_update_story] *)
Definition updateStory (storyId : string) (updates : Story.updates)
    : M (option Story.t) :=
  let! projects := getAllProjects in
  for_loop (fun i project =>
    match Project.stories project with
    | Some stories =>
        match list_find (λ s, Story.id s = storyId) stories with
        | Some (storyIndex, story) =>
            let! t1 := now in
            let updatedStory :=
              Story.set_updatedAt t1 (Story.merge story updates) in
            let! t2 := now in
            let project :=
              Project.set_updatedAt t2
                (Project.set_stories
                   (<[storyIndex := updatedStory]> stories) project) in
            do! saveProjects (<[i := project]> projects) in
            ret (Some updatedStory)
        | None => ret None
        end
    | None => ret None
    end) 0 projects.

(** *** fix_project_service.py, [new_create_character] *)
Definition createCharacter (data : CharacterData) : M Character.t :=
  let! now_ := now in
  let! id := freshId in
  let character :=
    {| Character.id := id;
       Character.name := cd_name data;
       Character.description := or_else (cd_description data) "";
       Character.projectId := cd_projectId data;
       Character.role := "supporting";
       Character.age := None;
       Character.appearance := "";
       Character.personality := "";
       Character.backstory := "";
       Character.goals := "";
       Character.createdAt := now_;
       Character.updatedAt := now_ |} in
  let! projects := getAllProjects in
  match list_find (λ p, Project.id p = cd_projectId data) projects with
  | Some (projectIndex, project) =>
      let characters := default [] (Project.characters project) in
      let project :=
        Project.set_updatedAt now_
          (Project.set_characters (characters ++ [character]) project) in
      do! saveProjects (<[projectIndex := project]> projects) in
      ret character
  | None => ret character
  end.

(** *** fix_project_service.py, [new_update_character] *)
Definition updateCharacter (characterId : string)
    (updates : Character.updates) : M (option Character.t) :=
  let! projects := getAllProjects in
  for_loop (fun i project =>
    match Project.characters project with
    | Some characters =>
        match list_find (λ c, Character.id c = characterId) characters with
        | Some (characterIndex, character) =>
            let! t1 := now in
            let updatedCharacter :=
              Character.set_updatedAt t1 (Character.merge character updates) in
            let! t2 := now in
            let project :=
              Project.set_updatedAt t2
                (Project.set_characters
                   (<[characterIndex := updatedCharacter]> characters)
                   project) in
            do! saveProjects (<[i := project]> projects) in
            ret (Some updatedCharacter)
        | None => ret None
        end
    | None => ret None
    end) 0 projects.

(** *** fix_project_service.py, [new_delete_character]

    [splice(characterIndex, 1)] removes the element at that index. *)
Definition deleteCharacter (characterId : string) : M bool :=
  let! projects := getAllProjects in
  let! r :=
    for_loop (fun i project =>
      match Project.characters project with
      | Some characters =>
          match list_find (λ c, Character.id c = characterId) characters with
          | Some (characterIndex, _) =>
              let! t := now in
              let project :=
                Project.set_updatedAt t
                  (Project.set_characters
                     (delete characterIndex characters) project) in
              do! saveProjects (<[i := project]> projects) in
              ret (Some true)
          | None => ret None
          end
      | None => ret None
      end) 0 projects in
  ret (default false r).

(** *** fix_services_properly.py, [new_delete_story]

    The script rewrites the loop of the method; the method around it, with
    its closing [return false], is that of [deleteCharacter]. *)
Definition deleteStory (storyId : string) : M bool :=
  let! projects := getAllProjects in
  let! r :=
    for_loop (fun i project =>
      match Project.stories project with
      | Some stories =>
          match list_find (λ s, Story.id s = storyId) stories with
          | Some (storyIndex, _) =>
              let! t := now in
              let project :=
                Project.set_updatedAt t
                  (Project.set_stories (delete storyIndex stories) project) in
              do! saveProjects (<[i := project]> projects) in
              ret (Some true)
          | None => ret None
          end
      | None => ret None
      end) 0 projects in
  ret (default false r).

(** The story (character) literal the method builds: its identifier and
    its two equal timestamps come from the state at the call. *)
Definition builtStory (data : StoryData) (w : World) : Story.t :=
  {| Story.id := generateId (issued w);
     Story.title := sd_title data;
     Story.description := or_else (sd_description data) "";
     Story.projectId := sd_projectId data;
     Story.content := "";
     Story.wordCount := 0;
     Story.type := "story";
     Story.createdAt := clock (ticks w);
     Story.updatedAt := clock (ticks w);
     Story.isArchived := false;
     Story.order := 0 |}.

Definition builtCharacter (data : CharacterData) (w : World) : Character.t :=
  {| Character.id := generateId (issued w);
     Character.name := cd_name data;
     Character.description := or_else (cd_description data) "";
     Character.projectId := cd_projectId data;
     Character.role := "supporting";
     Character.age := None;
     Character.appearance := "";
     Character.personality := "";
     Character.backstory := "";
     Character.goals := "";
     Character.createdAt := clock (ticks w);
     Character.updatedAt := clock (ticks w) |}.

(** What the construction alone consumes: one clock reading and one
    identifier. *)
Definition afterBuild (w : World) : World :=
  {| storage := storage w; saves := saves w; events := events w;
     ticks := S (ticks w); issued := S (issued w) |}.

End ProjectService.

(** ** The writing companion *)

Module WritingSession.
(** fix_session_interface.py, [new_interface]. The element types
    [AISuggestion] and [AIFeedback] are kept as their texts. *)
Record t := mk {
  id : string;
  title : string;
  contentId : option string;
  mood : option string;
  startTime : Z;
  endTime : option Z;
  content : string;
  wordCount : Z;
  totalWords : Z;
  wordsAdded : Z;
  timeSpent : Z;
  productivity : Z;
  suggestions : list string;
  feedback : list string;
  aiInteractions : Z;
  isActive : bool
}.
End WritingSession.

Module AIPersonality.
Record traits := mkTraits {
  encouraging : Z;
  critical : Z;
  creative : Z;
  analytical : Z
}.

(** fix_personality_complete.py, [new_interface]; [specialties] and
    [communicationStyle] are absent from the profiles that
    fix_personalities.py writes. *)
Record t := mk {
  id : string;
  name : string;
  description : string;
  role : string;
  traits_ : traits;
  specialties : option (list string);
  communicationStyle : option string;
  greetingStyle : string;
  feedbackStyle : string;
  isActive : bool
}.

Definition set_isActive (b : bool) (p : t) : t :=
  {| id := id p; name := name p; description := description p;
     role := role p; traits_ := traits_ p; specialties := specialties p;
     communicationStyle := communicationStyle p;
     greetingStyle := greetingStyle p; feedbackStyle := feedbackStyle p;
     isActive := b |}.
End AIPersonality.

(** *** fix_personalities.py, [new_personalities] *)
Definition new_personalities : list AIPersonality.t :=
  [ AIPersonality.mk "mentor" "Wise Mentor" "Supportive and guiding" "mentor"
      (AIPersonality.mkTraits 80 20 60 70) None None
      "warm" "constructive" true;
    AIPersonality.mk "critic" "Analytical Critic" "Detail-oriented and precise"
      "critic" (AIPersonality.mkTraits 30 90 40 95) None None
      "professional" "detailed" false;
    AIPersonality.mk "cheerleader" "Enthusiastic Cheerleader"
      "Energetic and supportive" "cheerleader"
      (AIPersonality.mkTraits 95 10 75 30) None None
      "artistic" "encouraging" false;
    AIPersonality.mk "collaborator" "Creative Collaborator"
      "Collaborative and creative" "collaborator"
      (AIPersonality.mkTraits 70 40 90 60) None None
      "curious" "collaborative" false;
    AIPersonality.mk "editor" "Professional Editor"
      "Focused on quality and precision" "editor"
      (AIPersonality.mkTraits 50 80 30 85) None None
      "direct" "editorial" false ].

(** *** fix_personality_complete.py

    The script holds the five profiles as dictionaries and renders each one
    into the object literal of the initialization. *)
Record Seed := mkSeed {
  seed_id : string;
  seed_role : string;
  seed_name : string;
  seed_traits : AIPersonality.traits;
  seed_specialties : list string;
  seed_communicationStyle : string
}.

Definition personalities : list Seed :=
  [ mkSeed "mentor" "mentor" "Wise Mentor" (AIPersonality.mkTraits 80 20 60 70)
      ["guidance"; "motivation"; "story_structure"] "supportive";
    mkSeed "critic" "critic" "Analytical Critic"
      (AIPersonality.mkTraits 30 90 40 95)
      ["grammar"; "style_analysis"; "plot_holes"] "formal";
    mkSeed "cheerleader" "cheerleader" "Enthusiastic Cheerleader"
      (AIPersonality.mkTraits 95 10 75 30)
      ["motivation"; "confidence_building"; "encouragement"] "playful";
    mkSeed "collaborator" "collaborator" "Creative Collaborator"
      (AIPersonality.mkTraits 70 40 90 60)
      ["brainstorming"; "idea_generation"; "creative_prompts"] "casual";
    mkSeed "editor" "editor" "Professional Editor"
      (AIPersonality.mkTraits 50 80 30 85)
      ["editing"; "proofreading"; "structure"] "direct" ].

(** One pass of the [for p in personalities] loop: the literal the f-string
    writes. [p["name"].split()[1]] raises when the name has a single word;
    that is the [None] here. *)
Definition render (p : Seed) : option AIPersonality.t :=
  second ← String.words (seed_name p) !! 1;
  Some {| AIPersonality.id := seed_id p;
          AIPersonality.name := seed_name p;
          AIPersonality.description := second +:+ " personality";
          AIPersonality.role := seed_role p;
          AIPersonality.traits_ := seed_traits p;
          AIPersonality.specialties := Some (seed_specialties p);
          AIPersonality.communicationStyle := Some (seed_communicationStyle p);
          AIPersonality.greetingStyle := seed_communicationStyle p;
          AIPersonality.feedbackStyle := "constructive";
          AIPersonality.isActive := bool_decide (seed_id p = "mentor") |}.

Definition new_init : option (list AIPersonality.t) :=
  mapM render personalities.

(** The state of the companion service: the session it holds, its
    personality registry, and the number of clock readings and of random
    draws consumed so far. *)
Record Companion := mkCompanion {
  currentSession : option WritingSession.t;
  registry : list AIPersonality.t;
  reads : nat;
  draws : nat
}.

Section Companion.

(** [Date.now()] as the sequence of its readings, and the text that
    [Math.random().toString(36).substring(2, 9)] yields at each draw. *)
Variable clock : nat -> Z.
Variable randomSuffix : nat -> string.

(** The enumerated vocabulary of moods is not among the patched texts. *)
Variable allowedMoods : list string.

Definition dateNow : State Companion Z :=
  fun c => (clock (reads c),
            {| currentSession := currentSession c; registry := registry c;
               reads := S (reads c); draws := draws c |}).

Definition mathRandom : State Companion string :=
  fun c => (randomSuffix (draws c),
            {| currentSession := currentSession c; registry := registry c;
               reads := reads c; draws := S (draws c) |}).

Definition setCurrentSession (s : WritingSession.t) : State Companion unit :=
  fun c => (tt, {| currentSession := Some s; registry := registry c;
                   reads := reads c; draws := draws c |}).

(** Modelled from the spec: [validateMood] is not among the patched texts.
    It returns the candidate if it belongs to the enumerated allowed
    vocabulary, otherwise nothing. *)
Definition validateMood (candidate : option string) : option string :=
  match candidate with
  | Some m => if bool_decide (m ∈ allowedMoods) then Some m else None
  | None => None
  end.

(** *** fix_session_interface.py, [new_session_creation]

    The patched text ends after [productivity: 0,]. Modelled from the
    spec: the rest of the literal (empty [suggestions] and [feedback], no
    interactions, [isActive = true]) and that the session becomes the
    current one. *)
Definition startWritingSession (title : string) (contentId mood : option string)
    : State Companion WritingSession.t :=
  let! t0 := dateNow in
  let! r := mathRandom in
  let! t1 := dateNow in
  let session :=
    {| WritingSession.id := "session_" +:+ pretty t0 +:+ "_" +:+ r;
       WritingSession.title := title;
       WritingSession.contentId := contentId;
       WritingSession.mood := Some (or_else (validateMood mood) "neutral");
       WritingSession.startTime := t1;
       WritingSession.endTime := None;
       WritingSession.content := "";
       WritingSession.wordCount := 0;
       WritingSession.totalWords := 0;
       WritingSession.wordsAdded := 0;
       WritingSession.timeSpent := 0;
       WritingSession.productivity := 0;
       WritingSession.suggestions := [];
       WritingSession.feedback := [];
       WritingSession.aiInteractions := 0;
       WritingSession.isActive := true |} in
  do! setCurrentSession session in
  ret session.

(** fix_session_interface.py, [new_method] *)
Definition getCurrentSession : State Companion (option WritingSession.t) :=
  fun c => (currentSession c, c).

End Companion.

(** Modelled from the spec: the recomputation of the derived metrics is not
    among the patched texts. Whenever the session content changes,
    [wordCount] is taken from the current content,
    [wordsAdded = max(0, wordCount - totalWords at the last checkpoint)],
    and [totalWords] advances by the words added, so that it accumulates
    the words written whatever is deleted. *)
Definition countWords (content : string) : Z :=
  Z.of_nat (length (String.words content)).

Definition updateSessionContent (content : string) (s : WritingSession.t)
    : WritingSession.t :=
  let wordCount := countWords content in
  let wordsAdded := Z.max 0 (wordCount - WritingSession.totalWords s) in
  {| WritingSession.id := WritingSession.id s;
     WritingSession.title := WritingSession.title s;
     WritingSession.contentId := WritingSession.contentId s;
     WritingSession.mood := WritingSession.mood s;
     WritingSession.startTime := WritingSession.startTime s;
     WritingSession.endTime := WritingSession.endTime s;
     WritingSession.content := content;
     WritingSession.wordCount := wordCount;
     WritingSession.totalWords := WritingSession.totalWords s + wordsAdded;
     WritingSession.wordsAdded := wordsAdded;
     WritingSession.timeSpent := WritingSession.timeSpent s;
     WritingSession.productivity := WritingSession.productivity s;
     WritingSession.suggestions := WritingSession.suggestions s;
     WritingSession.feedback := WritingSession.feedback s;
     WritingSession.aiInteractions := WritingSession.aiInteractions s;
     WritingSession.isActive := WritingSession.isActive s |}.

(** Modelled from the spec: [setActivePersonality] and
    [getActivePersonality] are not among the patched texts. An unknown id is
    a no-op; otherwise [isActive] is cleared on all profiles and set
    exclusively on the target. *)
Definition setActivePersonality (id : string) : State Companion unit :=
  fun c =>
    match list_find (λ p, AIPersonality.id p = id) (registry c) with
    | None => (tt, c)
    | Some (index, target) =>
        (tt, {| currentSession := currentSession c;
                registry :=
                  <[index := AIPersonality.set_isActive true target]>
                    (AIPersonality.set_isActive false <$> registry c);
                reads := reads c; draws := draws c |})
    end.

Definition getActivePersonality : State Companion (option AIPersonality.t) :=
  fun c =>
    (snd <$> list_find (λ p, AIPersonality.isActive p = true) (registry c), c).

(** ** Vocabulary of the statements *)

(** The identifiers of the stories (characters) a project holds; a project
    without the list holds none. *)
Definition storyIdsOf (p : Project.t) : list string :=
  Story.id <$> default [] (Project.stories p).

Definition characterIdsOf (p : Project.t) : list string :=
  Character.id <$> default [] (Project.characters p).

Definition projectIds (projects : list Project.t) : list string :=
  Project.id <$> projects.

(** [{ title: T2 }] *)
Definition titleOnly (T2 : string) : Story.updates :=
  Story.mkUpdates None (Some T2) None None None None None None None None None.

(** No story and no character of the project carries an updatedAt later
    than [t]. *)
Definition childrenNotAfter (t : Timestamp) (p : Project.t) : Prop :=
  Forall (λ s, (Story.updatedAt s ≤ t)%Z) (default [] (Project.stories p)) ∧
  Forall (λ c, (Character.updatedAt c ≤ t)%Z)
    (default [] (Project.characters p)).

(** The number of profiles of a registry that are active. *)
Definition activeCount (reg : list AIPersonality.t) : nat :=
  length (filter (λ p, AIPersonality.isActive p = true) reg).

(** The companion as constructed over a registry, and after a sequence of
    [setActivePersonality] calls. *)
Definition initialCompanion (reg : list AIPersonality.t) : Companion :=
  mkCompanion None reg 0 0.

Definition afterCalls (ids : list string) (c : Companion) : Companion :=
  foldl (λ c id, snd (setActivePersonality id c)) c ids.

(** A session after a sequence of content changes. *)
Definition sessionAfter (contents : list string) (s : WritingSession.t)
    : WritingSession.t :=
  foldl (λ s content, updateSessionContent content s) s contents.

Definition sampleMoods : list string :=
  ["happy"; "sad"; "neutral"; "excited"; "focused"].

Definition sampleSuffix : nat -> string := fun n => "r" +:+ pretty n.

(** ** Sample worlds *)

Definition sampleClock : nat -> Timestamp := fun n => (1000 + Z.of_nat n)%Z.

Definition sampleIds : nat -> string := fun n => "id" +:+ pretty n.

Definition sampleWordCount (id : string) (projects : list Project.t) : Z :=
  match list_find (λ p, Project.id p = id) projects with
  | Some (_, p) =>
      (countWords (Project.title p) + countWords (Project.description p))%Z
  | None => 0%Z
  end.

Definition chapter1 : Story.t :=
  Story.mk "s1" "Chapter 1" "" "p1" "" 0 "story" 10 10 false 0.

Definition chapter2 : Story.t :=
  Story.mk "s2" "Chapter 2" "" "p1" "" 0 "story" 20 20 false 0.

Definition hero : Character.t :=
  Character.mk "c1" "Hero" "" "p1" "supporting" None "" "" "" "" 30 30.

Definition novel : Project.t :=
  Project.mk "p1" "Novel" "A tale" 5 40 40 7
    (Some [chapter1; chapter2]) (Some [hero]).

Definition poems : Project.t :=
  Project.mk "p2" "Poems" "" 6 6 6 0 None None.

Definition sampleWorld : World := mkWorld [novel; poems] 0 [] 0 0.

(** Two projects, each holding a story "s1" and a character "c1": the
    identifiers are unique within each owning project, not across them. *)
Definition twin1 : Project.t :=
  Project.mk "q1" "First" "" 5 40 40 0
    (Some [Story.mk "s1" "Chapter 1" "" "q1" "" 0 "story" 10 10 false 0])
    (Some [Character.mk "c1" "Hero" "" "q1" "supporting" None "" "" "" ""
             30 30]).

Definition twin2 : Project.t :=
  Project.mk "q2" "Second" "" 6 40 40 0
    (Some [Story.mk "s1" "Prologue" "" "q2" "" 0 "story" 10 10 false 0])
    (Some [Character.mk "c1" "Rival" "" "q2" "supporting" None "" "" "" ""
             30 30]).

Definition twinWorld : World := mkWorld [twin1; twin2] 0 [] 0 0.

(** A snapshot whose only story was stamped later than the clock now
    reads. *)
Definition lateStory : Story.t :=
  Story.mk "s9" "Epilogue" "" "p1" "" 0 "story" 5000 5000 false 0.

Definition lateWorld : World :=
  mkWorld [Project.mk "p1" "Novel" "" 5 5000 5000 0 (Some [lateStory]) None]
    0 [] 0 0.

(** [{ title: T }] as an [UpdateProjectData]. *)
Definition retitle (T : string) : Project.data :=
  Project.mkData None (Some T) None None None None None None None.

(** ** Vocabulary of the further statements *)

(** The story (character) identifiers of a whole snapshot, in scan order:
    project by project, and within a project in list order. *)
Definition allStoryIds (projects : list Project.t) : list string :=
  projects ≫= storyIdsOf.

Definition allCharacterIds (projects : list Project.t) : list string :=
  projects ≫= characterIdsOf.

(** A list of identifiers without the first occurrence of [k]. *)
Fixpoint removeFirst (k : string) (ids : list string) : list string :=
  match ids with
  | [] => []
  | x :: ids' => if decide (x = k) then ids' else x :: removeFirst k ids'
  end.

Definition occurrences (k : string) (ids : list string) : nat :=
  length (filter (λ x, x = k) ids).

(** The fields of a project that the story and character methods never
    assign. *)
Definition projectCore (p : Project.t)
    : string * string * string * Timestamp * Timestamp * Z :=
  (Project.id p, Project.title p, Project.description p,
   Project.createdAt p, Project.lastEditedAt p, Project.wordCount p).

(** The stories (characters) of a project, an absent list read as empty. *)
Definition storiesOf (p : Project.t) : list Story.t :=
  default [] (Project.stories p).

Definition charactersOf (p : Project.t) : list Character.t :=
  default [] (Project.characters p).

(** [n] successive calls of a method, with their results in call order. *)
Fixpoint repeatedly (n : nat) (op : M bool) : M (list bool) :=
  match n with
  | 0 => ret []
  | S n' =>
      let! r := op in
      let! rs := repeatedly n' op in
      ret (r :: rs)
  end.

(** The same updates with an [updatedAt] of the caller's added. *)
Definition storyUpdatesStamped (x : Timestamp) (u : Story.updates)
    : Story.updates :=
  Story.mkUpdates (Story.u_id u) (Story.u_title u) (Story.u_description u)
    (Story.u_projectId u) (Story.u_content u) (Story.u_wordCount u)
    (Story.u_type u) (Story.u_createdAt u) (Some x) (Story.u_isArchived u)
    (Story.u_order u).

Definition characterUpdatesStamped (x : Timestamp) (u : Character.updates)
    : Character.updates :=
  Character.mkUpdates (Character.u_id u) (Character.u_name u)
    (Character.u_description u) (Character.u_projectId u)
    (Character.u_role u) (Character.u_age u) (Character.u_appearance u)
    (Character.u_personality u) (Character.u_backstory u)
    (Character.u_goals u) (Character.u_createdAt u) (Some x).

Definition projectDataStamped (x y : Timestamp) (d : Project.data)
    : Project.data :=
  Project.mkData (Project.d_id d) (Project.d_title d)
    (Project.d_description d) (Project.d_createdAt d) (Some x) (Some y)
    (Project.d_wordCount d) (Project.d_stories d) (Project.d_characters d).

(** ** The patch scripts

    Each script reads a TypeScript file into a [str], edits it and writes it
    back. A text is kept as the list of its characters, so that [len],
    indexing and slicing are [length], lookup, [take] and [drop]. *)

Definition text (s : string) : list ascii := String.list_ascii_of_string s.

(** [s.startswith(sub)] *)
Fixpoint startswith (s sub : list ascii) : bool :=
  match sub, s with
  | [], _ => true
  | c :: sub', d :: s' => bool_decide (c = d) && startswith s' sub'
  | _ :: _, [] => false
  end.

(** [s.find(sub)]: the lowest index at which [sub] occurs in [s]; [None]
    stands for the -1 of a text that does not hold it. *)
Fixpoint find (sub s : list ascii) : option nat :=
  if startswith s sub then Some 0
  else match s with
       | [] => None
       | _ :: s' => S <$> find sub s'
       end.

(** [sub in s] *)
Definition contains (sub s : list ascii) : bool :=
  match find sub s with Some _ => true | None => false end.

(** *** fix_personalities.py and fix_personality_complete.py, the scan
    for the bracket that closes the array

    [rest] is [content[pos:]]. The loop leaves [pos] on the first "]" met
    at count zero, or at [len(content)] when there is none. *)
Fixpoint closing_bracket (rest : list ascii) (bracket_count pos : nat) : nat :=
  match rest with
  | [] => pos
  | c :: rest' =>
      if bool_decide (c = "["%char) then
        closing_bracket rest' (S bracket_count) (S pos)
      else if bool_decide (c = "]"%char) then
        match bracket_count with
        | 0 => pos
        | S n => closing_bracket rest' n (S pos)
        end
      else closing_bracket rest' bracket_count (S pos)
  end.

Definition start_marker : list ascii := text "this.personalities = [".

(** fix_personalities.py, [new_personalities] as the text it is. *)
Definition new_personalities_ts : list ascii :=
  text "this.personalities = [
      {
        id: 'mentor',
        name: 'Wise Mentor',
        description: 'Supportive and guiding',
        role: 'mentor',
        traits: {
          encouraging: 80,
          critical: 20,
          creative: 60,
          analytical: 70
        },
        greetingStyle: 'warm',
        feedbackStyle: 'constructive',
        isActive: true
      },
      {
        id: 'critic',
        name: 'Analytical Critic',
        description: 'Detail-oriented and precise',
        role: 'critic',
        traits: {
          encouraging: 30,
          critical: 90,
          creative: 40,
          analytical: 95
        },
        greetingStyle: 'professional',
        feedbackStyle: 'detailed',
        isActive: false
      },
      {
        id: 'cheerleader',
        name: 'Enthusiastic Cheerleader',
        description: 'Energetic and supportive',
        role: 'cheerleader',
        traits: {
          encouraging: 95,
          critical: 10,
          creative: 75,
          analytical: 30
        },
        greetingStyle: 'artistic',
        feedbackStyle: 'encouraging',
        isActive: false
      },
      {
        id: 'collaborator',
        name: 'Creative Collaborator',
        description: 'Collaborative and creative',
        role: 'collaborator',
        traits: {
          encouraging: 70,
          critical: 40,
          creative: 90,
          analytical: 60
        },
        greetingStyle: 'curious',
        feedbackStyle: 'collaborative',
        isActive: false
      },
      {
        id: 'editor',
        name: 'Professional Editor',
        description: 'Focused on quality and precision',
        role: 'editor',
        traits: {
          encouraging: 50,
          critical: 80,
          creative: 30,
          analytical: 85
        },
        greetingStyle: 'direct',
        feedbackStyle: 'editorial',
        isActive: false
      }".

(** *** fix_personalities.py, [fix_personalities]: what the script makes
    of the content of the file *)
Definition fix_personalities (content : list ascii) : list ascii :=
  match find start_marker content with
  | Some start_pos =>
      let pos :=
        closing_bracket (drop (start_pos + length start_marker) content)
          0 (start_pos + length start_marker) in
      if bool_decide (pos < length content) then
        let before := take start_pos content in
        let after := drop (pos + 1) content in
        before ++ new_personalities_ts ++ text "
    ];" ++ after
      else content
  | None => content
  end.

(** *** fix_personality_complete.py, the text of the new initialization *)

(** [s.rstrip(chars)] *)
Fixpoint lstrip (chars s : list ascii) : list ascii :=
  match s with
  | [] => []
  | c :: s' => if bool_decide (c ∈ chars) then lstrip chars s' else s
  end.

Definition rstrip (chars s : list ascii) : list ascii :=
  reverse (lstrip chars (reverse s)).

(** [sep.join(parts)] *)
Fixpoint join (sep : list ascii) (parts : list (list ascii)) : list ascii :=
  match parts with
  | [] => []
  | [x] => x
  | x :: parts' => x ++ sep ++ join sep parts'
  end.

(** [str(tags)] for a list of strings made of letters, digits and
    underscores, as the specialty tags of the script all are: each one
    between single quotes, separated by a comma and a space, between
    brackets. *)
Definition str_of_tags (tags : list string) : list ascii :=
  text "[" ++ join (text ", ") ((λ t, text "'" ++ text t ++ text "'") <$> tags)
    ++ text "]".

(** [s.replace(old, new)] for single characters. *)
Definition replace_char (old new : ascii) (s : list ascii) : list ascii :=
  (λ c, if bool_decide (c = old) then new else c) <$> s.

(** One pass of the loop: the text the f-string adds for a profile;
    [None] when [p["name"].split()[1]] raises. *)
Definition render_ts (p : Seed) : option (list ascii) :=
  second ← String.words (seed_name p) !! 1;
  Some (text "      {
        id: '" ++ text (seed_id p) ++ text "',
        name: '" ++ text (seed_name p) ++ text "',
        description: '" ++ text second ++ text " personality',
        role: '" ++ text (seed_role p) ++ text "',
        traits: {
          encouraging: "
        ++ text (pretty (AIPersonality.encouraging (seed_traits p)))
        ++ text ",
          critical: "
        ++ text (pretty (AIPersonality.critical (seed_traits p)))
        ++ text ",
          creative: "
        ++ text (pretty (AIPersonality.creative (seed_traits p)))
        ++ text ",
          analytical: "
        ++ text (pretty (AIPersonality.analytical (seed_traits p)))
        ++ text "
        },
        specialties: "
        ++ replace_char "'"%char "034"%char (str_of_tags (seed_specialties p))
        ++ text ",
        communicationStyle: '" ++ text (seed_communicationStyle p) ++ text "',
        greetingStyle: '" ++ text (seed_communicationStyle p) ++ text "',
        feedbackStyle: 'constructive',
        isActive: "
        ++ text (if bool_decide (seed_id p = "mentor") then "true" else "false")
        ++ text "
      },
").

(** fix_personality_complete.py, lines 101-121: [new_init] as text. *)
Definition new_init_ts : option (list ascii) :=
  parts ← mapM render_ts personalities;
  Some (rstrip (text ",
") (text "this.personalities = [
" ++ concat parts) ++ text "
    ];").

(** *** fix_personality_complete.py, lines 77-126: the replacement of the
    initialization; [None] when building the text raises. *)
Definition replace_initialization (content : list ascii)
    : option (list ascii) :=
  match find start_marker content with
  | Some start_pos =>
      let pos :=
        closing_bracket (drop (start_pos + length start_marker) content)
          0 (start_pos + length start_marker) in
      let end_pos := pos + 2 in
      if bool_decide (end_pos ≤ length content)%nat then
        new_init ← new_init_ts;
        let before := take start_pos content in
        let after := drop end_pos content in
        Some (before ++ new_init ++ after)
      else Some content
  | None => Some content
  end.

(** *** fix_session_interface.py, lines 73-103: adding [getCurrentSession] *)

(** [rest] is [content[pos:]]; the count may go below zero. *)
Fixpoint closing_brace (rest : list ascii) (brace_count : Z) (pos : nat)
    : nat :=
  match rest with
  | [] => pos
  | c :: rest' =>
      if bool_decide (c = "{"%char) then
        closing_brace rest' (brace_count + 1) (S pos)
      else if bool_decide (c = "}"%char) then
        if bool_decide (brace_count - 1 = 0)%Z then pos
        else closing_brace rest' (brace_count - 1) (S pos)
      else closing_brace rest' brace_count (S pos)
  end.

Definition new_method : list ascii :=
  text "

  getCurrentSession(): WritingSession | null {
    return this.currentSession;
  }".

(** [s.find(sub)] as the integer Python returns. *)
Definition find_index (sub s : list ascii) : Z :=
  match find sub s with Some i => Z.of_nat i | None => (-1)%Z end.

Definition add_getCurrentSession (content : list ascii) : list ascii :=
  if negb (contains (text "getCurrentSession()") content) then
    let insert_point :=
      (find_index (text "this.saveToLocalStorage();") content
       + Z.of_nat (length (text "this.saveToLocalStorage();")))%Z in
    if bool_decide
         (insert_point
            > Z.of_nat (length (text "this.saveToLocalStorage();")) - 1)%Z
    then
      match find (text "async startWritingSession(") content with
      | Some start_pos =>
          let pos := closing_brace (drop start_pos content) 0 start_pos in
          if bool_decide (pos < length content) then
            let before := take (pos + 1) content in
            let after := drop (pos + 1) content in
            before ++ new_method ++ after
          else content
      | None => content
      end
    else content
  else content.

(** The number of occurrences of a character, and a run of text in which
    every [close] answers an earlier [open] and none is left open. *)
Definition count_char (c : ascii) (s : list ascii) : nat :=
  length (filter (λ x, x = c) s).

Definition balanced (open close : ascii) (body : list ascii) : Prop :=
  (∀ n, (count_char close (take n body)
           ≤ count_char open (take n body))%nat) ∧
  count_char open body = count_char close body.

Definition free_of (c : ascii) (s : list ascii) : Prop :=
  Forall (λ x, x ≠ c) s.

(** The count a scan would hold after a run of text that started at count
    [k]; [None] when a [close] comes at count zero. *)
Fixpoint surplus (open close : ascii) (s : list ascii) (k : nat)
    : option nat :=
  match s with
  | [] => Some k
  | x :: s' =>
      if bool_decide (x = open) then surplus open close s' (S k)
      else if bool_decide (x = close) then
        match k with
        | 0 => None
        | S k' => surplus open close s' k'
        end
      else surplus open close s' k
  end.

(** ** Sample texts *)

Definition sampleBefore : list ascii := text "constructor() { ".

Definition sampleArray : list ascii :=
  text " { id: 'a', tags: ['x', 'y'] } ".

Definition sampleAfter : list ascii := text "; }".

Definition sampleClassStart : list ascii := text "class Companion { ".

Definition sampleHead : list ascii := text "title: string) ".

Definition sampleInner : list ascii :=
  text " if (title) { this.saveToLocalStorage(); } ".

Definition sampleClassEnd : list ascii := text " end() { } }".

(** [{ id: newId }] as the updates of a story, and [{ name: n }] as the
    updates of a character. *)
Definition idOnly (newId : string) : Story.updates :=
  Story.mkUpdates (Some newId) None None None None None None None None None
    None.

Definition renameOnly (n : string) : Character.updates :=
  Character.mkUpdates None (Some n) None None None None None None None None
    None None.

(** * Properties *)

(** ** Loops and linear scans *)

Lemma for_loop_miss {St A R} (body : nat -> A -> State St (option R))
    (rest : list A) (w : St) :
  ∀ i, (∀ j x, x ∈ rest → body j x w = (None, w)) →
       for_loop body i rest w = (None, w).
Proof.
  induction rest as [|x rest IH]; intros i Hmiss; [done|].
  simpl. unfold bind. rewrite (Hmiss i x) by apply list_elem_of_here.
  apply IH. intros j y Hy. apply Hmiss. by apply list_elem_of_further.
Qed.

Lemma for_loop_hit {St A R} (body : nat -> A -> State St (option R))
    (pre : list A) (x : A) (post : list A) (w w' : St) (v : R) :
  ∀ i, (∀ j y, y ∈ pre → body j y w = (None, w)) →
       body (i + length pre) x w = (Some v, w') →
       for_loop body i (pre ++ x :: post) w = (Some v, w').
Proof.
  induction pre as [|y pre IH]; intros i Hmiss Hhit; simpl in *.
  - unfold bind. rewrite Nat.add_0_r in Hhit. by rewrite Hhit.
  - unfold bind. rewrite (Hmiss i y) by apply list_elem_of_here.
    apply IH.
    + intros j z Hz. apply Hmiss. by apply list_elem_of_further.
    + by replace (S i + length pre) with (i + S (length pre)) by lia.
Qed.

(** The first element of a list that satisfies a decidable predicate splits
    the list in a prefix that misses it and the rest. *)
Lemma first_match {A} (P : A → Prop) `{!∀ x, Decision (P x)} (l : list A) :
  Exists P l →
  ∃ pre x post, l = pre ++ x :: post ∧ Forall (λ y, ¬ P y) pre ∧ P x.
Proof.
  induction l as [|a l IH]; intros Hex; [by inversion Hex|].
  destruct (decide (P a)) as [Ha|Ha].
  - by exists [], a, l.
  - inversion Hex as [|? ? Hl]; subst; [done|].
    destruct (IH Hl) as (pre & x & post & -> & Hpre & Hx).
    exists (a :: pre), x, post. split_and!; [done| |done].
    by constructor.
Qed.

Lemma list_find_split {A} (P : A → Prop) `{!∀ x, Decision (P x)}
    (pre : list A) (x : A) (post : list A) :
  Forall (λ y, ¬ P y) pre → P x →
  list_find P (pre ++ x :: post) = Some (length pre, x).
Proof.
  intros Hpre Hx. apply list_find_Some. split_and!.
  - by rewrite list_lookup_middle.
  - done.
  - intros j y Hj Hlt Hy. rewrite lookup_app_l in Hj by done.
    rewrite Forall_lookup in Hpre. by eapply Hpre.
Qed.

Lemma insert_middle {A} (pre : list A) (x y : A) (post : list A) :
  <[length pre := y]> (pre ++ x :: post) = pre ++ y :: post.
Proof. by rewrite insert_app_r_alt, Nat.sub_diag by lia. Qed.

Lemma delete_middle {A} (pre : list A) (x : A) (post : list A) :
  delete (length pre) (pre ++ x :: post) = pre ++ post.
Proof.
  induction pre as [|a pre IH]; simpl; [done|]. by rewrite IH.
Qed.

Lemma list_find_absent {A} (f : A → string) (k : string) (l : list A) :
  k ∉ (f <$> l) → list_find (λ x, f x = k) l = None.
Proof.
  intros Hk. apply list_find_None, Forall_forall. intros x Hx Heq.
  apply Hk. rewrite <- Heq. by apply list_elem_of_fmap_2.
Qed.

Lemma list_find_present {A} (f : A → string) (k : string) (l : list A) :
  k ∈ (f <$> l) →
  ∃ pre x post, l = pre ++ x :: post ∧ (k ∉ (f <$> pre)) ∧ f x = k.
Proof.
  intros Hk.
  destruct (first_match (λ x, f x = k) l) as (pre & x & post & -> & Hpre & Hx).
  - apply Exists_exists. apply list_elem_of_fmap in Hk as (x & -> & Hx). eauto.
  - exists pre, x, post. split_and!; [done| |done].
    intros (y & Hy & Hin)%list_elem_of_fmap.
    rewrite Forall_forall in Hpre. by apply (Hpre y Hin).
Qed.

(** The first project that holds a story (character) with a given
    identifier, and the first such story (character) in it. *)
Lemma locate_story (projects : list Project.t) (storyId : string) :
  Exists (λ p, storyId ∈ storyIdsOf p) projects →
  ∃ pre p post spre s spost,
    projects = pre ++ p :: post ∧
    Forall (λ q, storyId ∉ storyIdsOf q) pre ∧
    Project.stories p = Some (spre ++ s :: spost) ∧
    (storyId ∉ (Story.id <$> spre)) ∧
    Story.id s = storyId.
Proof.
  intros Hex.
  destruct (first_match _ projects Hex) as (pre & p & post & -> & Hpre & Hp).
  unfold storyIdsOf in Hp.
  destruct (Project.stories p) as [stories|] eqn:Hstories;
    [|by apply not_elem_of_nil in Hp].
  destruct (list_find_present Story.id storyId stories Hp)
    as (spre & s & spost & -> & Hspre & Hs).
  by exists pre, p, post, spre, s, spost.
Qed.

Lemma locate_character (projects : list Project.t) (characterId : string) :
  Exists (λ p, characterId ∈ characterIdsOf p) projects →
  ∃ pre p post cpre c cpost,
    projects = pre ++ p :: post ∧
    Forall (λ q, characterId ∉ characterIdsOf q) pre ∧
    Project.characters p = Some (cpre ++ c :: cpost) ∧
    (characterId ∉ (Character.id <$> cpre)) ∧
    Character.id c = characterId.
Proof.
  intros Hex.
  destruct (first_match _ projects Hex) as (pre & p & post & -> & Hpre & Hp).
  unfold characterIdsOf in Hp.
  destruct (Project.characters p) as [characters|] eqn:Hcharacters;
    [|by apply not_elem_of_nil in Hp].
  destruct (list_find_present Character.id characterId characters Hp)
    as (cpre & c & cpost & -> & Hcpre & Hc).
  by exists pre, p, post, cpre, c, cpost.
Qed.

Lemma childrenNotAfter_mono (t t' : Timestamp) (p : Project.t) :
  (t ≤ t')%Z → childrenNotAfter t p → childrenNotAfter t' p.
Proof.
  intros Hle [Hs Hc]. split.
  - eapply Forall_impl; [exact Hs|]. simpl. intros; lia.
  - eapply Forall_impl; [exact Hc|]. simpl. intros; lia.
Qed.

(** ** The project service *)

Section ProjectServiceFacts.

Variable clock : nat -> Timestamp.
Variable generateId : nat -> string.
Variable calculateProjectWordCount : string -> list Project.t -> Z.

(** *** createStory / createCharacter *)

Lemma createStory_result (data : StoryData) (w : World) :
  fst (createStory clock generateId data w)
    = builtStory clock generateId data w.
Proof.
  unfold createStory, bind, now, freshId, getAllProjects. simpl.
  by destruct (list_find _ _) as [[i q]|].
Qed.

Lemma createCharacter_result (data : CharacterData) (w : World) :
  fst (createCharacter clock generateId data w)
    = builtCharacter clock generateId data w.
Proof.
  unfold createCharacter, bind, now, freshId, getAllProjects. simpl.
  by destruct (list_find _ _) as [[i q]|].
Qed.

Lemma createStory_miss (data : StoryData) (w : World) :
  sd_projectId data ∉ projectIds (storage w) →
  createStory clock generateId data w
    = (builtStory clock generateId data w, afterBuild w).
Proof.
  intros Hno. unfold createStory, bind, now, freshId, getAllProjects. simpl.
  by rewrite (list_find_absent Project.id _ _ Hno).
Qed.

Lemma createCharacter_miss (data : CharacterData) (w : World) :
  cd_projectId data ∉ projectIds (storage w) →
  createCharacter clock generateId data w
    = (builtCharacter clock generateId data w, afterBuild w).
Proof.
  intros Hno. unfold createCharacter, bind, now, freshId, getAllProjects.
  simpl. by rewrite (list_find_absent Project.id _ _ Hno).
Qed.

Lemma createStory_hit (data : StoryData) (w : World)
    (pre post : list Project.t) (p : Project.t) :
  storage w = pre ++ p :: post →
  sd_projectId data ∉ projectIds pre →
  Project.id p = sd_projectId data →
  createStory clock generateId data w =
    (builtStory clock generateId data w,
     {| storage :=
          pre ++ Project.set_updatedAt (clock (ticks w))
                   (Project.set_stories
                      (default [] (Project.stories p)
                         ++ [builtStory clock generateId data w]) p) :: post;
        saves := S (saves w); events := events w;
        ticks := S (ticks w); issued := S (issued w) |}).
Proof.
  intros Hst Hpre Hp.
  unfold createStory, bind, now, freshId, getAllProjects. simpl.
  rewrite Hst.
  rewrite (list_find_split (λ q, Project.id q = sd_projectId data) pre p post).
  - unfold bind, saveProjects, ret. simpl. by rewrite insert_middle.
  - apply Forall_forall. intros q Hq Heq. apply Hpre.
    rewrite <- Heq. by apply list_elem_of_fmap_2.
  - done.
Qed.

Lemma createCharacter_hit (data : CharacterData) (w : World)
    (pre post : list Project.t) (p : Project.t) :
  storage w = pre ++ p :: post →
  cd_projectId data ∉ projectIds pre →
  Project.id p = cd_projectId data →
  createCharacter clock generateId data w =
    (builtCharacter clock generateId data w,
     {| storage :=
          pre ++ Project.set_updatedAt (clock (ticks w))
                   (Project.set_characters
                      (default [] (Project.characters p)
                         ++ [builtCharacter clock generateId data w]) p) :: post;
        saves := S (saves w); events := events w;
        ticks := S (ticks w); issued := S (issued w) |}).
Proof.
  intros Hst Hpre Hp.
  unfold createCharacter, bind, now, freshId, getAllProjects. simpl.
  rewrite Hst.
  rewrite (list_find_split (λ q, Project.id q = cd_projectId data) pre p post).
  - unfold bind, saveProjects, ret. simpl. by rewrite insert_middle.
  - apply Forall_forall. intros q Hq Heq. apply Hpre.
    rewrite <- Heq. by apply list_elem_of_fmap_2.
  - done.
Qed.

(** C10. Whatever the call, the character [createCharacter] returns has
    role 'supporting', no age, empty appearance, personality, backstory
    and goals, the given description or the empty string in its place,
    and equal creation and update stamps; with the description omitted it
    is the empty string. *)
Theorem createCharacter_defaults :
  (∀ (data : CharacterData) (w : World),
     let c := fst (createCharacter clock generateId data w) in
     Character.role c = "supporting" ∧
     Character.age c = None ∧
     Character.appearance c = "" ∧
     Character.personality c = "" ∧
     Character.backstory c = "" ∧
     Character.goals c = "" ∧
     Character.name c = cd_name data ∧
     Character.projectId c = cd_projectId data ∧
     Character.description c = or_else (cd_description data) "" ∧
     Character.createdAt c = Character.updatedAt c) ∧
  (∀ (name projectId : string) (w : World),
     Character.description
       (fst (createCharacter clock generateId
               (mkCharacterData name None projectId) w)) = "").
Proof.
  split.
  - intros data w. rewrite createCharacter_result. by repeat split.
  - intros name projectId w. by rewrite createCharacter_result.
Qed.

(** C3. When the projectId matches no project of the loaded snapshot,
    [createStory] ([createCharacter]) still returns the story (character)
    it built, and nothing is written: the persisted snapshot, the count of
    saves and the event log are those of before the call, so the entity
    is under no project. *)
Theorem orphan_creation_not_persisted :
  (∀ (data : StoryData) (w : World),
     sd_projectId data ∉ projectIds (storage w) →
     ∃ story w',
       createStory clock generateId data w = (story, w') ∧
       Story.id story = generateId (issued w) ∧
       Story.title story = sd_title data ∧
       Story.projectId story = sd_projectId data ∧
       storage w' = storage w ∧ saves w' = saves w ∧
       events w' = events w) ∧
  (∀ (data : CharacterData) (w : World),
     cd_projectId data ∉ projectIds (storage w) →
     ∃ character w',
       createCharacter clock generateId data w = (character, w') ∧
       Character.id character = generateId (issued w) ∧
       Character.name character = cd_name data ∧
       Character.projectId character = cd_projectId data ∧
       storage w' = storage w ∧ saves w' = saves w ∧
       events w' = events w).
Proof.
  split; intros data w Hno.
  - eexists _, _. split; [by apply createStory_miss|]. by repeat split.
  - eexists _, _. split; [by apply createCharacter_miss|]. by repeat split.
Qed.

(** *** updateProjectSync *)

(** C1, as amended. For an id present in the loaded snapshot,
    [updateProjectSync] takes the first project with that id, spreads the
    partial over it, stamps updatedAt and lastEditedAt with the two clock
    readings, replaces wordCount by the recomputed count exactly when the
    partial carries a non-empty title or a non-empty description, writes
    the snapshot with that project replaced, emits one project-updated
    event carrying it, and returns it. For an absent id it returns null
    and leaves the world as it was. *)
Theorem updateProjectSync_spec :
  (∀ (w : World) (id : string) (data : Project.data),
     id ∈ projectIds (storage w) →
     ∃ index found updated w',
       list_find (λ p, Project.id p = id) (storage w) = Some (index, found) ∧
       updateProjectSync clock calculateProjectWordCount id data w
         = (Some updated, w') ∧
       Project.title updated
         = default (Project.title found) (Project.d_title data) ∧
       Project.description updated
         = default (Project.description found) (Project.d_description data) ∧
       Project.id updated = default (Project.id found) (Project.d_id data) ∧
       Project.createdAt updated
         = default (Project.createdAt found) (Project.d_createdAt data) ∧
       Project.stories updated
         = Project.stories (Project.merge found data) ∧
       Project.characters updated
         = Project.characters (Project.merge found data) ∧
       Project.updatedAt updated = clock (ticks w) ∧
       Project.lastEditedAt updated = clock (S (ticks w)) ∧
       Project.wordCount updated
         = (if truthy (Project.d_title data)
               || truthy (Project.d_description data)
            then calculateProjectWordCount id (storage w)
            else default (Project.wordCount found)
                   (Project.d_wordCount data)) ∧
       storage w' = <[index := updated]> (storage w) ∧
       saves w' = S (saves w) ∧
       events w' = events w ++ [("project-updated", updated)]) ∧
  (∀ (w : World) (id : string) (data : Project.data),
     id ∉ projectIds (storage w) →
     updateProjectSync clock calculateProjectWordCount id data w = (None, w)).
Proof.
  split.
  - intros w id data Hin.
    destruct (list_find_present Project.id id (storage w) Hin)
      as (pre & found & post & Hst & Hpre & Hid).
    assert (Hfind : list_find (λ p, Project.id p = id) (storage w)
                    = Some (length pre, found)).
    { rewrite Hst. apply list_find_split; [|done].
      apply Forall_forall. intros q Hq Heq. apply Hpre.
      rewrite <- Heq. by apply list_elem_of_fmap_2. }
    exists (length pre), found.
    unfold updateProjectSync, bind, getAllProjects. rewrite Hfind.
    unfold now, wordCountOf, saveProjects, emit, ret, bind. simpl.
    destruct (truthy (Project.d_title data)
              || truthy (Project.d_description data)); simpl;
      eexists _, _; by repeat split.
  - intros w id data Hno.
    unfold updateProjectSync, bind, getAllProjects.
    by rewrite (list_find_absent Project.id id (storage w) Hno).
Qed.

(** *** updateStory / updateCharacter *)

Lemma updateStory_miss (w : World) (storyId : string)
    (updates : Story.updates) :
  Forall (λ p, storyId ∉ storyIdsOf p) (storage w) →
  updateStory clock storyId updates w = (None, w).
Proof.
  intros Hnone. unfold updateStory, bind, getAllProjects.
  apply for_loop_miss. intros j p Hp.
  rewrite Forall_forall in Hnone. specialize (Hnone p Hp).
  unfold storyIdsOf in Hnone.
  destruct (Project.stories p) as [stories|]; [|done]. simpl in Hnone.
  by rewrite (list_find_absent Story.id storyId stories Hnone).
Qed.

Lemma updateStory_hit (w : World) (storyId : string) (updates : Story.updates)
    (pre post : list Project.t) (p : Project.t)
    (spre spost : list Story.t) (s : Story.t) :
  storage w = pre ++ p :: post →
  Forall (λ q, storyId ∉ storyIdsOf q) pre →
  Project.stories p = Some (spre ++ s :: spost) →
  storyId ∉ (Story.id <$> spre) →
  Story.id s = storyId →
  let s' := Story.set_updatedAt (clock (ticks w)) (Story.merge s updates) in
  updateStory clock storyId updates w =
    (Some s',
     {| storage :=
          pre ++ Project.set_updatedAt (clock (S (ticks w)))
                   (Project.set_stories (spre ++ s' :: spost) p) :: post;
        saves := S (saves w); events := events w;
        ticks := S (S (ticks w)); issued := issued w |}).
Proof.
  intros Hst Hpre Hp Hspre Hs s'. unfold updateStory, bind, getAllProjects.
  rewrite Hst. apply for_loop_hit.
  - intros j q Hq. rewrite Forall_forall in Hpre. specialize (Hpre q Hq).
    unfold storyIdsOf in Hpre.
    destruct (Project.stories q) as [stories|]; [|done]. simpl in Hpre.
    by rewrite (list_find_absent Story.id storyId stories Hpre).
  - rewrite Hp. simpl.
    rewrite (list_find_split (λ x, Story.id x = storyId) spre s spost).
    + unfold bind, now, saveProjects, ret. simpl.
      by rewrite !insert_middle.
    + apply Forall_forall. intros x Hx Heq. apply Hspre.
      rewrite <- Heq. by apply list_elem_of_fmap_2.
    + done.
Qed.

Lemma updateCharacter_miss (w : World) (characterId : string)
    (updates : Character.updates) :
  Forall (λ p, characterId ∉ characterIdsOf p) (storage w) →
  updateCharacter clock characterId updates w = (None, w).
Proof.
  intros Hnone. unfold updateCharacter, bind, getAllProjects.
  apply for_loop_miss. intros j p Hp.
  rewrite Forall_forall in Hnone. specialize (Hnone p Hp).
  unfold characterIdsOf in Hnone.
  destruct (Project.characters p) as [characters|]; [|done]. simpl in Hnone.
  by rewrite (list_find_absent Character.id characterId characters Hnone).
Qed.

Lemma updateCharacter_hit (w : World) (characterId : string)
    (updates : Character.updates)
    (pre post : list Project.t) (p : Project.t)
    (cpre cpost : list Character.t) (c : Character.t) :
  storage w = pre ++ p :: post →
  Forall (λ q, characterId ∉ characterIdsOf q) pre →
  Project.characters p = Some (cpre ++ c :: cpost) →
  characterId ∉ (Character.id <$> cpre) →
  Character.id c = characterId →
  let c' :=
    Character.set_updatedAt (clock (ticks w)) (Character.merge c updates) in
  updateCharacter clock characterId updates w =
    (Some c',
     {| storage :=
          pre ++ Project.set_updatedAt (clock (S (ticks w)))
                   (Project.set_characters (cpre ++ c' :: cpost) p) :: post;
        saves := S (saves w); events := events w;
        ticks := S (S (ticks w)); issued := issued w |}).
Proof.
  intros Hst Hpre Hp Hcpre Hc c'.
  unfold updateCharacter, bind, getAllProjects.
  rewrite Hst. apply for_loop_hit.
  - intros j q Hq. rewrite Forall_forall in Hpre. specialize (Hpre q Hq).
    unfold characterIdsOf in Hpre.
    destruct (Project.characters q) as [characters|]; [|done]. simpl in Hpre.
    by rewrite (list_find_absent Character.id characterId characters Hpre).
  - rewrite Hp. simpl.
    rewrite (list_find_split (λ x, Character.id x = characterId) cpre c cpost).
    + unfold bind, now, saveProjects, ret. simpl.
      by rewrite !insert_middle.
    + apply Forall_forall. intros x Hx Heq. apply Hcpre.
      rewrite <- Heq. by apply list_elem_of_fmap_2.
    + done.
Qed.

(** C2. When some project of the loaded snapshot holds a story with the
    id, [updateStory] stops at the first such project and the first such
    story in it. The story it returns has every field taken from the
    updates where they carry it and from the stored story where they do
    not, except updatedAt, which is the clock reading. The snapshot it
    writes, in one save, is the loaded one with that story replaced at its
    place and the project's updatedAt set to the next clock reading, every
    other field of the project and every other project being as loaded.
    When no project holds the id it returns null and the world is as
    before. *)
Theorem updateStory_spec :
  (∀ (w : World) (storyId : string) (updates : Story.updates),
     Exists (λ p, storyId ∈ storyIdsOf p) (storage w) →
     ∃ pre p post spre s spost s' p',
       storage w = pre ++ p :: post ∧
       Forall (λ q, storyId ∉ storyIdsOf q) pre ∧
       Project.stories p = Some (spre ++ s :: spost) ∧
       (storyId ∉ (Story.id <$> spre)) ∧
       Story.id s = storyId ∧
       s' = Story.mk
              (default (Story.id s) (Story.u_id updates))
              (default (Story.title s) (Story.u_title updates))
              (default (Story.description s) (Story.u_description updates))
              (default (Story.projectId s) (Story.u_projectId updates))
              (default (Story.content s) (Story.u_content updates))
              (default (Story.wordCount s) (Story.u_wordCount updates))
              (default (Story.type s) (Story.u_type updates))
              (default (Story.createdAt s) (Story.u_createdAt updates))
              (clock (ticks w))
              (default (Story.isArchived s) (Story.u_isArchived updates))
              (default (Story.order s) (Story.u_order updates)) ∧
       p' = Project.mk (Project.id p) (Project.title p)
              (Project.description p) (Project.createdAt p)
              (clock (S (ticks w))) (Project.lastEditedAt p)
              (Project.wordCount p) (Some (spre ++ s' :: spost))
              (Project.characters p) ∧
       updateStory clock storyId updates w =
         (Some s',
          mkWorld (pre ++ p' :: post) (S (saves w)) (events w)
            (S (S (ticks w))) (issued w))) ∧
  (∀ (w : World) (storyId : string) (updates : Story.updates),
     Forall (λ p, storyId ∉ storyIdsOf p) (storage w) →
     updateStory clock storyId updates w = (None, w)).
Proof.
  split.
  - intros w storyId updates Hex.
    destruct (locate_story _ _ Hex)
      as (pre & p & post & spre & s & spost & Hst & Hpre & Hp & Hspre & Hs).
    exists pre, p, post, spre, s, spost. eexists _, _.
    split_and!; [done|done|done|done|done|reflexivity|reflexivity|].
    rewrite (updateStory_hit w storyId updates pre post p spre spost s)
      by done.
    reflexivity.
  - intros w storyId updates. apply updateStory_miss.
Qed.

(** *** deleteStory / deleteCharacter *)

Lemma deleteStory_miss (w : World) (storyId : string) :
  Forall (λ p, storyId ∉ storyIdsOf p) (storage w) →
  deleteStory clock storyId w = (false, w).
Proof.
  intros Hnone. unfold deleteStory, bind, getAllProjects.
  rewrite for_loop_miss; [done|]. intros j p Hp.
  rewrite Forall_forall in Hnone. specialize (Hnone p Hp).
  unfold storyIdsOf in Hnone.
  destruct (Project.stories p) as [stories|]; [|done]. simpl in Hnone.
  by rewrite (list_find_absent Story.id storyId stories Hnone).
Qed.

Lemma deleteStory_hit (w : World) (storyId : string)
    (pre post : list Project.t) (p : Project.t)
    (spre spost : list Story.t) (s : Story.t) :
  storage w = pre ++ p :: post →
  Forall (λ q, storyId ∉ storyIdsOf q) pre →
  Project.stories p = Some (spre ++ s :: spost) →
  storyId ∉ (Story.id <$> spre) →
  Story.id s = storyId →
  deleteStory clock storyId w =
    (true,
     {| storage :=
          pre ++ Project.set_updatedAt (clock (ticks w))
                   (Project.set_stories (spre ++ spost) p) :: post;
        saves := S (saves w); events := events w;
        ticks := S (ticks w); issued := issued w |}).
Proof.
  intros Hst Hpre Hp Hspre Hs. unfold deleteStory, bind, getAllProjects.
  rewrite Hst.
  erewrite for_loop_hit; [reflexivity| |].
  - intros j q Hq. rewrite Forall_forall in Hpre. specialize (Hpre q Hq).
    unfold storyIdsOf in Hpre.
    destruct (Project.stories q) as [stories|]; [|done]. simpl in Hpre.
    by rewrite (list_find_absent Story.id storyId stories Hpre).
  - rewrite Hp. simpl.
    rewrite (list_find_split (λ x, Story.id x = storyId) spre s spost).
    + unfold bind, now, saveProjects, ret. simpl.
      by rewrite insert_middle, delete_middle.
    + apply Forall_forall. intros x Hx Heq. apply Hspre.
      rewrite <- Heq. by apply list_elem_of_fmap_2.
    + done.
Qed.

Lemma deleteCharacter_miss (w : World) (characterId : string) :
  Forall (λ p, characterId ∉ characterIdsOf p) (storage w) →
  deleteCharacter clock characterId w = (false, w).
Proof.
  intros Hnone. unfold deleteCharacter, bind, getAllProjects.
  rewrite for_loop_miss; [done|]. intros j p Hp.
  rewrite Forall_forall in Hnone. specialize (Hnone p Hp).
  unfold characterIdsOf in Hnone.
  destruct (Project.characters p) as [characters|]; [|done]. simpl in Hnone.
  by rewrite (list_find_absent Character.id characterId characters Hnone).
Qed.

Lemma deleteCharacter_hit (w : World) (characterId : string)
    (pre post : list Project.t) (p : Project.t)
    (cpre cpost : list Character.t) (c : Character.t) :
  storage w = pre ++ p :: post →
  Forall (λ q, characterId ∉ characterIdsOf q) pre →
  Project.characters p = Some (cpre ++ c :: cpost) →
  characterId ∉ (Character.id <$> cpre) →
  Character.id c = characterId →
  deleteCharacter clock characterId w =
    (true,
     {| storage :=
          pre ++ Project.set_updatedAt (clock (ticks w))
                   (Project.set_characters (cpre ++ cpost) p) :: post;
        saves := S (saves w); events := events w;
        ticks := S (ticks w); issued := issued w |}).
Proof.
  intros Hst Hpre Hp Hcpre Hc. unfold deleteCharacter, bind, getAllProjects.
  rewrite Hst.
  erewrite for_loop_hit; [reflexivity| |].
  - intros j q Hq. rewrite Forall_forall in Hpre. specialize (Hpre q Hq).
    unfold characterIdsOf in Hpre.
    destruct (Project.characters q) as [characters|]; [|done]. simpl in Hpre.
    by rewrite (list_find_absent Character.id characterId characters Hpre).
  - rewrite Hp. simpl.
    rewrite (list_find_split (λ x, Character.id x = characterId) cpre c cpost).
    + unfold bind, now, saveProjects, ret. simpl.
      by rewrite insert_middle, delete_middle.
    + apply Forall_forall. intros x Hx Heq. apply Hcpre.
      rewrite <- Heq. by apply list_elem_of_fmap_2.
    + done.
Qed.

(** C7, as amended. When the id occurs exactly once among the stories
    (characters) of the whole snapshot, the first [deleteStory]
    ([deleteCharacter]) returns true and writes the snapshot with exactly
    that entity removed from its project's list (and the project's
    updatedAt stamped); a second call with the same id returns false and
    leaves the whole world, hence the persisted snapshot and the length of
    every list in it, as the first call left it. *)
Theorem delete_twice :
  (∀ (w : World) (storyId : string) (pre post : list Project.t)
     (p : Project.t) (spre spost : list Story.t) (s : Story.t),
     storage w = pre ++ p :: post →
     Project.stories p = Some (spre ++ s :: spost) →
     Story.id s = storyId →
     Forall (λ q, storyId ∉ storyIdsOf q) (pre ++ post) →
     storyId ∉ (Story.id <$> (spre ++ spost)) →
     ∃ w1,
       deleteStory clock storyId w = (true, w1) ∧
       storage w1 =
         pre ++ Project.set_updatedAt (clock (ticks w))
                  (Project.set_stories (spre ++ spost) p) :: post ∧
       saves w1 = S (saves w) ∧
       deleteStory clock storyId w1 = (false, w1)) ∧
  (∀ (w : World) (characterId : string) (pre post : list Project.t)
     (p : Project.t) (cpre cpost : list Character.t) (c : Character.t),
     storage w = pre ++ p :: post →
     Project.characters p = Some (cpre ++ c :: cpost) →
     Character.id c = characterId →
     Forall (λ q, characterId ∉ characterIdsOf q) (pre ++ post) →
     characterId ∉ (Character.id <$> (cpre ++ cpost)) →
     ∃ w1,
       deleteCharacter clock characterId w = (true, w1) ∧
       storage w1 =
         pre ++ Project.set_updatedAt (clock (ticks w))
                  (Project.set_characters (cpre ++ cpost) p) :: post ∧
       saves w1 = S (saves w) ∧
       deleteCharacter clock characterId w1 = (false, w1)).
Proof.
  split.
  - intros w storyId pre post p spre spost s Hst Hp Hs Hrest Hsib.
    apply Forall_app in Hrest as [Hpre Hpost].
    rewrite fmap_app in Hsib. apply not_elem_of_app in Hsib as [Hspre Hspost].
    eexists. split; [by eapply deleteStory_hit|]. split_and!; [done..|].
    apply deleteStory_miss. simpl.
    apply Forall_app. split; [done|]. constructor; [|done].
    unfold storyIdsOf. simpl. rewrite fmap_app.
    by apply not_elem_of_app.
  - intros w characterId pre post p cpre cpost c Hst Hp Hc Hrest Hsib.
    apply Forall_app in Hrest as [Hpre Hpost].
    rewrite fmap_app in Hsib. apply not_elem_of_app in Hsib as [Hcpre Hcpost].
    eexists. split; [by eapply deleteCharacter_hit|]. split_and!; [done..|].
    apply deleteCharacter_miss. simpl.
    apply Forall_app. split; [done|]. constructor; [|done].
    unfold characterIdsOf. simpl. rewrite fmap_app.
    by apply not_elem_of_app.
Qed.

Lemma or_else_empty (d : option string) : or_else d "" = default "" d.
Proof.
  destruct d as [v|]; [|done]. unfold or_else, truthy. simpl.
  destruct (String.eqb_spec v ""); by subst.
Qed.

(** C8, as amended. For a story that is the first holder of its id in the
    snapshot - no earlier project, and no earlier story of its own project,
    carries the id - [updateStory] with [{title: T2}] returns that story
    with title T2, updatedAt the clock reading and every other field kept,
    and the snapshot written has every other project unchanged and, in the
    owning project, the stories before and after it, the characters and
    every field but updatedAt unchanged. A story created under an existing
    project id, with an identifier no stored story carries yet, is such a
    story: the update that follows finds it after the earlier stories of
    its project, which stay as they were. *)
Theorem updateStory_title_frame :
  (∀ (w : World) (T2 : string) (pre post : list Project.t) (p : Project.t)
     (spre spost : list Story.t) (s : Story.t),
     storage w = pre ++ p :: post →
     Project.stories p = Some (spre ++ s :: spost) →
     Forall (λ q, Story.id s ∉ storyIdsOf q) pre →
     Story.id s ∉ (Story.id <$> spre) →
     ∃ s' p' w',
       updateStory clock (Story.id s) (titleOnly T2) w = (Some s', w') ∧
       s' = Story.mk (Story.id s) T2 (Story.description s)
              (Story.projectId s) (Story.content s) (Story.wordCount s)
              (Story.type s) (Story.createdAt s) (clock (ticks w))
              (Story.isArchived s) (Story.order s) ∧
       storage w' = pre ++ p' :: post ∧
       p' = Project.mk (Project.id p) (Project.title p)
              (Project.description p) (Project.createdAt p)
              (clock (S (ticks w))) (Project.lastEditedAt p)
              (Project.wordCount p) (Some (spre ++ s' :: spost))
              (Project.characters p) ∧
       saves w' = S (saves w)) ∧
  (∀ (w : World) (data : StoryData) (T2 : string),
     sd_projectId data ∈ projectIds (storage w) →
     Forall (λ q, generateId (issued w) ∉ storyIdsOf q) (storage w) →
     ∃ pre p post s w1 s' w2 p',
       storage w = pre ++ p :: post ∧
       (sd_projectId data ∉ projectIds pre) ∧
       Project.id p = sd_projectId data ∧
       createStory clock generateId data w = (s, w1) ∧
       updateStory clock (Story.id s) (titleOnly T2) w1 = (Some s', w2) ∧
       s' = Story.mk (generateId (issued w)) T2
              (default "" (sd_description data)) (sd_projectId data) "" 0
              "story" (clock (ticks w)) (clock (S (ticks w))) false 0 ∧
       storage w2 = pre ++ p' :: post ∧
       p' = Project.mk (Project.id p) (Project.title p)
              (Project.description p) (Project.createdAt p)
              (clock (S (S (ticks w)))) (Project.lastEditedAt p)
              (Project.wordCount p)
              (Some (default [] (Project.stories p) ++ [s']))
              (Project.characters p)).
Proof.
  split.
  - intros w T2 pre post p spre spost s Hst Hp Hpre Hspre.
    eexists _, _, _. split; [by eapply updateStory_hit|].
    by split_and!.
  - intros w data T2 Hin Hfresh.
    destruct (list_find_present Project.id _ _ Hin)
      as (pre & p & post & Hst & Hpre & Hp).
    rewrite Hst in Hfresh.
    apply Forall_app in Hfresh as [Hfpre Hfpost].
    apply Forall_cons in Hfpost as [Hfp Hfpost].
    exists pre, p, post. eexists _, _, _, _, _.
    split_and!; [done|done|done|by apply createStory_hit| |..].
    + eapply (updateStory_hit _ _ _ pre post _
                (default [] (Project.stories p)) []); simpl; done.
    + simpl. unfold Story.set_updatedAt, Story.merge. simpl.
      by rewrite or_else_empty.
    + done.
    + simpl. unfold Story.set_updatedAt, Story.merge, Project.set_updatedAt,
        Project.set_stories. simpl. by rewrite or_else_empty.
Qed.

(** C9, as amended. After [createStory], [updateStory],
    [createCharacter] or [updateCharacter] has touched a child, the owning
    project's updatedAt is at least the updatedAt of that child, given
    that the clock did not run backwards between the two readings of an
    update; it is at least the updatedAt of every story and character the
    project holds when, in addition, none of them was stamped in the
    loaded snapshot later than the clock read at the call. *)
Theorem project_stamp_covers_children :
  (∀ (w : World) (data : StoryData),
     sd_projectId data ∈ projectIds (storage w) →
     ∃ pre p post s p' w',
       storage w = pre ++ p :: post ∧
       createStory clock generateId data w = (s, w') ∧
       storage w' = pre ++ p' :: post ∧
       s ∈ default [] (Project.stories p') ∧
       (Story.updatedAt s ≤ Project.updatedAt p')%Z ∧
       (childrenNotAfter (clock (ticks w)) p →
        childrenNotAfter (Project.updatedAt p') p')) ∧
  (∀ (w : World) (storyId : string) (updates : Story.updates),
     Exists (λ p, storyId ∈ storyIdsOf p) (storage w) →
     (clock (ticks w) ≤ clock (S (ticks w)))%Z →
     ∃ pre p post s' p' w',
       storage w = pre ++ p :: post ∧
       updateStory clock storyId updates w = (Some s', w') ∧
       storage w' = pre ++ p' :: post ∧
       s' ∈ default [] (Project.stories p') ∧
       (Story.updatedAt s' ≤ Project.updatedAt p')%Z ∧
       (childrenNotAfter (clock (ticks w)) p →
        childrenNotAfter (Project.updatedAt p') p')) ∧
  (∀ (w : World) (data : CharacterData),
     cd_projectId data ∈ projectIds (storage w) →
     ∃ pre p post c p' w',
       storage w = pre ++ p :: post ∧
       createCharacter clock generateId data w = (c, w') ∧
       storage w' = pre ++ p' :: post ∧
       c ∈ default [] (Project.characters p') ∧
       (Character.updatedAt c ≤ Project.updatedAt p')%Z ∧
       (childrenNotAfter (clock (ticks w)) p →
        childrenNotAfter (Project.updatedAt p') p')) ∧
  (∀ (w : World) (characterId : string) (updates : Character.updates),
     Exists (λ p, characterId ∈ characterIdsOf p) (storage w) →
     (clock (ticks w) ≤ clock (S (ticks w)))%Z →
     ∃ pre p post c' p' w',
       storage w = pre ++ p :: post ∧
       updateCharacter clock characterId updates w = (Some c', w') ∧
       storage w' = pre ++ p' :: post ∧
       c' ∈ default [] (Project.characters p') ∧
       (Character.updatedAt c' ≤ Project.updatedAt p')%Z ∧
       (childrenNotAfter (clock (ticks w)) p →
        childrenNotAfter (Project.updatedAt p') p')).
Proof.
  split_and!.
  - intros w data Hin.
    destruct (list_find_present Project.id _ _ Hin)
      as (pre & p & post & Hst & Hpre & Hp).
    exists pre, p, post. eexists _, _, _.
    split_and!; [done|by apply createStory_hit|done|..]; simpl.
    + apply elem_of_app. right. apply list_elem_of_here.
    + lia.
    + intros [Hs Hc]. split; simpl; [|done].
      apply Forall_app. split; [done|]. constructor; [simpl; lia|done].
  - intros w storyId updates Hex Hclock.
    destruct (locate_story _ _ Hex)
      as (pre & p & post & spre & s & spost & Hst & Hpre & Hp & Hspre & Hs).
    exists pre, p, post. eexists _, _, _.
    split_and!; [done|by eapply updateStory_hit|done|..]; simpl.
    + apply elem_of_app. right. apply list_elem_of_here.
    + done.
    + intros Hb. apply (childrenNotAfter_mono _ _ _ Hclock).
      destruct Hb as [Hbs Hbc]. rewrite Hp in Hbs. simpl in Hbs.
      apply Forall_app in Hbs as [Hb1 Hb2].
      apply Forall_cons in Hb2 as [_ Hb2].
      split; simpl; [|done].
      apply Forall_app. split; [done|]. constructor; [simpl; lia|done].
  - intros w data Hin.
    destruct (list_find_present Project.id _ _ Hin)
      as (pre & p & post & Hst & Hpre & Hp).
    exists pre, p, post. eexists _, _, _.
    split_and!; [done|by apply createCharacter_hit|done|..]; simpl.
    + apply elem_of_app. right. apply list_elem_of_here.
    + lia.
    + intros [Hs Hc]. split; simpl; [done|].
      apply Forall_app. split; [done|]. constructor; [simpl; lia|done].
  - intros w characterId updates Hex Hclock.
    destruct (locate_character _ _ Hex)
      as (pre & p & post & cpre & c & cpost & Hst & Hpre & Hp & Hcpre & Hc).
    exists pre, p, post. eexists _, _, _.
    split_and!; [done|by eapply updateCharacter_hit|done|..]; simpl.
    + apply elem_of_app. right. apply list_elem_of_here.
    + done.
    + intros Hb. apply (childrenNotAfter_mono _ _ _ Hclock).
      destruct Hb as [Hbs Hbc]. rewrite Hp in Hbc. simpl in Hbc.
      apply Forall_app in Hbc as [Hb1 Hb2].
      apply Forall_cons in Hb2 as [_ Hb2].
      split; simpl; [done|].
      apply Forall_app. split; [done|]. constructor; [simpl; lia|done].
Qed.

End ProjectServiceFacts.

(** ** The writing companion *)

Section SessionFacts.

Variable clock : nat -> Z.
Variable randomSuffix : nat -> string.
Variable allowedMoods : list string.

Lemma startWritingSession_run (title : string) (contentId mood : option string)
    (c : Companion) :
  ∃ s, startWritingSession clock randomSuffix allowedMoods title contentId
         mood c
       = (s, {| currentSession := Some s; registry := registry c;
                reads := S (S (reads c)); draws := S (draws c) |}) ∧
       WritingSession.mood s
         = Some (or_else (validateMood allowedMoods mood) "neutral") ∧
       WritingSession.startTime s = clock (S (reads c)) ∧
       WritingSession.title s = title ∧
       WritingSession.contentId s = contentId ∧
       WritingSession.content s = "" ∧
       WritingSession.wordCount s = 0%Z ∧
       WritingSession.totalWords s = 0%Z ∧
       WritingSession.wordsAdded s = 0%Z ∧
       WritingSession.timeSpent s = 0%Z ∧
       WritingSession.productivity s = 0%Z ∧
       WritingSession.isActive s = true.
Proof.
  unfold startWritingSession, bind, dateNow, mathRandom, setCurrentSession,
    ret. simpl.
  eexists. split; [reflexivity|]. simpl. by repeat split.
Qed.

Lemma or_else_nonempty (m dflt : string) :
  m ≠ "" → or_else (Some m) dflt = m.
Proof.
  intros Hm. unfold or_else, truthy.
  destruct (String.eqb_spec m ""); [done|]. done.
Qed.

(** C5. [startWritingSession] builds a session whose startTime is the
    clock reading taken for it, whose numeric metrics are all zero, which
    is active and becomes the current session; its mood is the candidate
    when [validateMood] accepts it (the vocabulary holding no empty word)
    and "neutral" when it does not, so that "furious", outside the
    vocabulary, yields "neutral". *)
Theorem startWritingSession_spec :
  ∀ (title : string) (contentId mood : option string) (c : Companion),
    "" ∉ allowedMoods →
    ∃ s c',
      startWritingSession clock randomSuffix allowedMoods title contentId
        mood c = (s, c') ∧
      currentSession c' = Some s ∧
      WritingSession.startTime s = clock (S (reads c)) ∧
      WritingSession.wordCount s = 0%Z ∧
      WritingSession.totalWords s = 0%Z ∧
      WritingSession.wordsAdded s = 0%Z ∧
      WritingSession.timeSpent s = 0%Z ∧
      WritingSession.productivity s = 0%Z ∧
      WritingSession.isActive s = true ∧
      (∀ m, validateMood allowedMoods mood = Some m →
            mood = Some m ∧ WritingSession.mood s = Some m) ∧
      (validateMood allowedMoods mood = None →
       WritingSession.mood s = Some "neutral") ∧
      ("furious" ∉ allowedMoods → mood = Some "furious" →
       WritingSession.mood s = Some "neutral").
Proof.
  intros title contentId mood c Hvocab.
  destruct (startWritingSession_run title contentId mood c)
    as (s & Hrun & Hmood & Hstart & _ & _ & _ & Hwc & Htw & Hwa & Hts & Hpr & Hact).
  exists s. eexists. split; [exact Hrun|]. split_and!; try done.
  - intros m Hm. rewrite Hmood, Hm.
    unfold validateMood in Hm. destruct mood as [m'|]; [|done].
    case_bool_decide as Hin; [|done]. simplify_eq. split; [done|].
    rewrite or_else_nonempty; [done|]. by intros ->.
  - intros Hnone. by rewrite Hmood, Hnone.
  - intros Hfurious ->. rewrite Hmood. unfold validateMood.
    by rewrite bool_decide_eq_false_2.
Qed.

(** C6. From the session [startWritingSession] builds and through any
    sequence of content changes, each recomputation leaves
    [wordsAdded = max(0, wordCount - totalWords before it)], which is
    never negative whether the content grew or shrank, and [totalWords]
    never decreases, neither at a step nor across the session. *)
Theorem session_metrics_invariant :
  ∀ (title : string) (contentId mood : option string) (c : Companion)
    (earlier later : list string) (content : string),
    let s0 :=
      fst (startWritingSession clock randomSuffix allowedMoods title
             contentId mood c) in
    let s := sessionAfter earlier s0 in
    let s' := updateSessionContent content s in
    WritingSession.wordCount s' = countWords content ∧
    WritingSession.wordsAdded s'
      = Z.max 0 (WritingSession.wordCount s' - WritingSession.totalWords s) ∧
    (0 ≤ WritingSession.wordsAdded s)%Z ∧
    (0 ≤ WritingSession.wordsAdded s')%Z ∧
    (WritingSession.totalWords s ≤ WritingSession.totalWords s')%Z ∧
    (WritingSession.totalWords s
       ≤ WritingSession.totalWords (sessionAfter later s))%Z ∧
    (WritingSession.totalWords s0 ≤ WritingSession.totalWords s)%Z.
Proof.
  intros title contentId mood c earlier later content s0 s s'.
  assert (Hstep : ∀ x t,
    (WritingSession.totalWords t
       ≤ WritingSession.totalWords (updateSessionContent x t))%Z).
  { intros x t. simpl. lia. }
  assert (Hmono : ∀ l t,
    (WritingSession.totalWords t
       ≤ WritingSession.totalWords (sessionAfter l t))%Z).
  { induction l as [|x l IH]; intros t; simpl; [lia|].
    etrans; [apply (Hstep x)|apply IH]. }
  assert (Hnonneg : ∀ l, (0 ≤ WritingSession.wordsAdded (sessionAfter l s0))%Z).
  { induction l as [|x l IH] using rev_ind; [simpl; lia|].
    unfold sessionAfter. rewrite foldl_app. simpl. lia. }
  split_and!.
  - done.
  - done.
  - apply Hnonneg.
  - simpl. lia.
  - apply Hstep.
  - apply Hmono.
  - apply Hmono.
Qed.

End SessionFacts.

(** *** The personality registry *)

Lemma activeCount_cleared (reg : list AIPersonality.t) :
  activeCount (AIPersonality.set_isActive false <$> reg) = 0.
Proof.
  unfold activeCount. induction reg as [|p reg IH]; [done|].
  rewrite fmap_cons, filter_cons_False; [exact IH|]. simpl. discriminate.
Qed.

Lemma activeCount_app (l1 l2 : list AIPersonality.t) :
  activeCount (l1 ++ l2) = activeCount l1 + activeCount l2.
Proof. unfold activeCount. by rewrite filter_app, length_app. Qed.

Lemma activeCount_exclusive (reg : list AIPersonality.t) (index : nat)
    (target : AIPersonality.t) :
  reg !! index = Some target →
  activeCount (<[index := AIPersonality.set_isActive true target]>
                 (AIPersonality.set_isActive false <$> reg)) = 1.
Proof.
  intros Hlook.
  destruct (list_elem_of_split_length reg index target Hlook)
    as (pre & post & -> & ->).
  rewrite fmap_app, fmap_cons.
  rewrite <- (length_fmap (AIPersonality.set_isActive false) pre).
  rewrite insert_middle, activeCount_app.
  change (?x :: ?l) with ([x] ++ l). rewrite activeCount_app.
  rewrite !activeCount_cleared. reflexivity.
Qed.

Lemma setActivePersonality_unknown (id : string) (c : Companion) :
  id ∉ (AIPersonality.id <$> registry c) →
  setActivePersonality id c = (tt, c).
Proof.
  intros Hno. unfold setActivePersonality.
  by rewrite (list_find_absent AIPersonality.id id _ Hno).
Qed.

Lemma setActivePersonality_count (id : string) (c : Companion) :
  activeCount (registry c) = 1 →
  activeCount (registry (snd (setActivePersonality id c))) = 1.
Proof.
  intros Hone. unfold setActivePersonality.
  destruct (list_find _ _) as [[index target]|] eqn:Hfind; [|done].
  apply list_find_Some in Hfind as (Hlook & _ & _). simpl.
  by apply activeCount_exclusive.
Qed.

Lemma afterCalls_count (ids : list string) (c : Companion) :
  activeCount (registry c) = 1 →
  activeCount (registry (afterCalls ids c)) = 1.
Proof.
  revert c. induction ids as [|id ids IH]; intros c Hone; [done|].
  simpl. apply IH. by apply setActivePersonality_count.
Qed.

(** C4. Both initial registries hold five profiles of which exactly the
    mentor is active; after any sequence of [setActivePersonality] calls,
    with known and unknown ids in any mix, exactly one profile is active; a
    call with an unknown id leaves the companion, and so the active
    profile, as it was, and a call with a known id makes that profile the
    active one. *)
Theorem exactly_one_active :
  (∃ reg, new_init = Some reg ∧ length reg = 5 ∧
          (snd <$> list_find (λ p, AIPersonality.isActive p = true) reg)
            ≫= (λ p, Some (AIPersonality.id p)) = Some "mentor" ∧
          ∀ calls : list string,
            activeCount (registry (afterCalls calls (initialCompanion reg))) = 1) ∧
  (length new_personalities = 5 ∧
   fst (getActivePersonality (initialCompanion new_personalities))
     ≫= (λ p, Some (AIPersonality.id p)) = Some "mentor" ∧
   ∀ calls : list string,
     activeCount
       (registry (afterCalls calls (initialCompanion new_personalities))) = 1) ∧
  (∀ (id : string) (c : Companion),
     id ∉ (AIPersonality.id <$> registry c) →
     setActivePersonality id c = (tt, c) ∧
     fst (getActivePersonality (snd (setActivePersonality id c)))
       = fst (getActivePersonality c)) ∧
  (∀ (id : string) (c : Companion),
     id ∈ (AIPersonality.id <$> registry c) →
     ∃ p, fst (getActivePersonality (snd (setActivePersonality id c))) = Some p ∧
          AIPersonality.id p = id ∧
          activeCount (registry (snd (setActivePersonality id c))) = 1).
Proof.
  split; [|split; [|split]].
  - eexists. split; [vm_compute; reflexivity|]. split_and!; [done|done|].
    intros calls. by apply afterCalls_count.
  - split_and!; [done|done|]. intros calls. by apply afterCalls_count.
  - intros id c Hno. rewrite setActivePersonality_unknown by done. done.
  - intros id c Hin.
    destruct (list_find_present AIPersonality.id id _ Hin)
      as (pre & x & post & Hreg & Hpre & Hx).
    assert (Hfind : list_find (λ p, AIPersonality.id p = id) (registry c)
                    = Some (length pre, x)).
    { rewrite Hreg. apply list_find_split; [|done].
      apply Forall_forall. intros q Hq Heq. apply Hpre.
      rewrite <- Heq. by apply list_elem_of_fmap_2. }
    unfold setActivePersonality, getActivePersonality. rewrite Hfind. simpl.
    exists (AIPersonality.set_isActive true x). split_and!.
    + rewrite Hreg, fmap_app, fmap_cons.
      rewrite <- (length_fmap (AIPersonality.set_isActive false) pre).
      rewrite insert_middle.
      rewrite (list_find_split (λ p, AIPersonality.isActive p = true)); [done| |done].
      apply Forall_forall. intros q (q' & -> & _)%list_elem_of_fmap. simpl.
      discriminate.
    + done.
    + apply activeCount_exclusive. rewrite Hreg. apply list_lookup_middle.
      done.
Qed.

(** ** The statements at sample inputs *)

(** Membership and absence in a concrete list, settled by evaluation. *)
Ltac by_evaluation := apply (bool_decide_unpack _); vm_compute; exact I.

Lemma updateProjectSync_spec_witness :
  ("p1" ∈ projectIds (storage sampleWorld) ∧
   ∃ updated w',
     updateProjectSync sampleClock sampleWordCount "p1" (retitle "Saga")
       sampleWorld = (Some updated, w') ∧
     Project.title updated = "Saga" ∧
     Project.updatedAt updated = 1000%Z ∧
     Project.lastEditedAt updated = 1001%Z ∧
     Project.wordCount updated = 3%Z ∧
     saves w' = 1 ∧
     events w' = [("project-updated", updated)]) ∧
  (("zz" ∉ projectIds (storage sampleWorld)) ∧
   updateProjectSync sampleClock sampleWordCount "zz" (retitle "Saga")
     sampleWorld = (None, sampleWorld)).
Proof.
  assert (Hin : "p1" ∈ projectIds (storage sampleWorld)) by by_evaluation.
  assert (Hno : "zz" ∉ projectIds (storage sampleWorld)) by by_evaluation.
  split; split; [exact Hin| |exact Hno|].
  - destruct (proj1 (updateProjectSync_spec sampleClock sampleWordCount)
                sampleWorld "p1" (retitle "Saga") Hin)
      as (index & found & updated & w' & Hfind & Hrun & Htitle & _ & _ & _
          & _ & _ & Hup & Hlast & Hwc & _ & Hsaves & Hev).
    vm_compute in Hfind. injection Hfind as <- <-.
    exists updated, w'. split_and!; [exact Hrun|exact Htitle|exact Hup
                                    |exact Hlast|exact Hwc|exact Hsaves|exact Hev].
  - exact (proj2 (updateProjectSync_spec sampleClock sampleWordCount)
             sampleWorld "zz" (retitle "Saga") Hno).
Defined.

(** C1 as stated fails: a partial that blanks the title changes the title,
    yet wordCount keeps its stored value, which is neither the count of the
    snapshot before the call nor that of the snapshot written. *)
Lemma updateProjectSync_blank_title_counterexample :
  ∃ updated w',
    updateProjectSync sampleClock sampleWordCount "p1" (retitle "") sampleWorld
      = (Some updated, w') ∧
    Project.title updated ≠ Project.title novel ∧
    Project.wordCount updated = Project.wordCount novel ∧
    Project.wordCount updated ≠ sampleWordCount "p1" (storage sampleWorld) ∧
    Project.wordCount updated ≠ sampleWordCount "p1" (storage w').
Proof.
  eexists _, _. split; [vm_compute; reflexivity|]. simpl.
  split_and!; [discriminate|reflexivity|vm_compute; discriminate
              |vm_compute; discriminate].
Qed.

Lemma updateStory_spec_witness :
  (Exists (λ p, "s2" ∈ storyIdsOf p) (storage sampleWorld) ∧
   ∃ s' w',
     updateStory sampleClock "s2" (titleOnly "Second") sampleWorld
       = (Some s', w') ∧
     s' = Story.mk "s2" "Second" "" "p1" "" 0 "story" 20 1000 false 0 ∧
     storage w'
       = [Project.mk "p1" "Novel" "A tale" 5 1001 40 7
            (Some [chapter1; s']) (Some [hero]); poems] ∧
     saves w' = 1 ∧ events w' = []) ∧
  (Forall (λ p, "zz" ∉ storyIdsOf p) (storage sampleWorld) ∧
   updateStory sampleClock "zz" (titleOnly "Second") sampleWorld
     = (None, sampleWorld)).
Proof.
  assert (Hex : Exists (λ p, "s2" ∈ storyIdsOf p) (storage sampleWorld))
    by by_evaluation.
  assert (Hno : Forall (λ p, "zz" ∉ storyIdsOf p) (storage sampleWorld))
    by by_evaluation.
  split; split; [exact Hex| |exact Hno|].
  - destruct (proj1 (updateStory_spec sampleClock) sampleWorld "s2"
                (titleOnly "Second") Hex)
      as (pre & p & post & spre & s & spost & s' & p' & _ & _ & _ & _ & _
          & _ & _ & Hrun).
    eexists _, _. split; [exact Hrun|].
    assert (Hc : updateStory sampleClock "s2" (titleOnly "Second") sampleWorld
                 = (Some (Story.mk "s2" "Second" "" "p1" "" 0 "story" 20 1000
                            false 0),
                    mkWorld
                      [Project.mk "p1" "Novel" "A tale" 5 1001 40 7
                         (Some [chapter1;
                                Story.mk "s2" "Second" "" "p1" "" 0 "story"
                                  20 1000 false 0])
                         (Some [hero]); poems] 1 [] 2 0))
      by (vm_compute; reflexivity).
    rewrite Hc in Hrun.
    pose proof (f_equal fst Hrun) as Hs.
    pose proof (f_equal (λ r, storage (snd r)) Hrun) as Hst.
    simpl in Hs, Hst. injection Hs as Hs.
    simpl. rewrite <- Hst, <- Hs. by split_and!.
  - exact (proj2 (updateStory_spec sampleClock) sampleWorld "zz"
             (titleOnly "Second") Hno).
Defined.

Lemma orphan_creation_witness :
  (("nowhere" ∉ projectIds (storage sampleWorld)) ∧
   ∃ story w',
     createStory sampleClock sampleIds (mkStoryData "Lost" None "nowhere")
       sampleWorld = (story, w') ∧
     Story.title story = "Lost" ∧
     storage w' = storage sampleWorld ∧ saves w' = 0) ∧
  (("nowhere" ∉ projectIds (storage sampleWorld)) ∧
   ∃ character w',
     createCharacter sampleClock sampleIds
       (mkCharacterData "Nobody" None "nowhere") sampleWorld
       = (character, w') ∧
     Character.name character = "Nobody" ∧
     storage w' = storage sampleWorld ∧ saves w' = 0).
Proof.
  assert (Hno : "nowhere" ∉ projectIds (storage sampleWorld)) by by_evaluation.
  split; split; [exact Hno| |exact Hno|].
  - destruct (proj1 (orphan_creation_not_persisted sampleClock sampleIds)
                (mkStoryData "Lost" None "nowhere") sampleWorld Hno)
      as (story & w' & Hrun & _ & Htitle & _ & Hst & Hsaves & _).
    exists story, w'. by split_and!.
  - destruct (proj2 (orphan_creation_not_persisted sampleClock sampleIds)
                (mkCharacterData "Nobody" None "nowhere") sampleWorld Hno)
      as (character & w' & Hrun & _ & Hname & _ & Hst & Hsaves & _).
    exists character, w'. by split_and!.
Defined.

Lemma delete_twice_witness :
  (storage sampleWorld = [] ++ novel :: [poems] ∧
   Project.stories novel = Some ([chapter1] ++ chapter2 :: []) ∧
   Forall (λ q, "s2" ∉ storyIdsOf q) ([] ++ [poems]) ∧
   ("s2" ∉ (Story.id <$> ([chapter1] ++ [])))  ∧
   ∃ w1, deleteStory sampleClock "s2" sampleWorld = (true, w1) ∧
         saves w1 = 1 ∧
         deleteStory sampleClock "s2" w1 = (false, w1)) ∧
  (Project.characters novel = Some ([] ++ hero :: []) ∧
   Forall (λ q, "c1" ∉ characterIdsOf q) ([] ++ [poems]) ∧
   ("c1" ∉ (Character.id <$> ([] ++ []))) ∧
   ∃ w1, deleteCharacter sampleClock "c1" sampleWorld = (true, w1) ∧
         saves w1 = 1 ∧
         deleteCharacter sampleClock "c1" w1 = (false, w1)).
Proof.
  assert (Hs1 : Forall (λ q, "s2" ∉ storyIdsOf q) ([] ++ [poems]))
    by by_evaluation.
  assert (Hs2 : "s2" ∉ (Story.id <$> ([chapter1] ++ []))) by by_evaluation.
  assert (Hc1 : Forall (λ q, "c1" ∉ characterIdsOf q) ([] ++ [poems]))
    by by_evaluation.
  assert (Hc2 : "c1" ∉ (Character.id <$> ([] ++ []))) by by_evaluation.
  split.
  - split_and!; [reflexivity|reflexivity|exact Hs1|exact Hs2|].
    destruct (proj1 (delete_twice sampleClock) sampleWorld "s2"
                [] [poems] novel [chapter1] [] chapter2
                eq_refl eq_refl eq_refl Hs1 Hs2)
      as (w1 & Hfirst & _ & Hsaves & Hsecond).
    by exists w1.
  - split_and!; [reflexivity|exact Hc1|exact Hc2|].
    destruct (proj2 (delete_twice sampleClock) sampleWorld "c1"
                [] [poems] novel [] [] hero
                eq_refl eq_refl eq_refl Hc1 Hc2)
      as (w1 & Hfirst & _ & Hsaves & Hsecond).
    by exists w1.
Defined.

(** C7 as stated fails: with the id under two projects, unique within each,
    the second call finds the other holder, returns true again and shortens
    a second list. *)
Lemma delete_twice_counterexample :
  (Exists (λ p, "s1" ∈ storyIdsOf p) (storage twinWorld) ∧
   ∃ w1 w2,
     deleteStory sampleClock "s1" twinWorld = (true, w1) ∧
     deleteStory sampleClock "s1" w1 = (true, w2) ∧
     storage w2 ≠ storage w1) ∧
  (Exists (λ p, "c1" ∈ characterIdsOf p) (storage twinWorld) ∧
   ∃ w1 w2,
     deleteCharacter sampleClock "c1" twinWorld = (true, w1) ∧
     deleteCharacter sampleClock "c1" w1 = (true, w2) ∧
     storage w2 ≠ storage w1).
Proof.
  split; (split; [by_evaluation|]); eexists _, _;
    (split; [vm_compute; reflexivity|]);
    (split; [vm_compute; reflexivity|]); simpl; discriminate.
Qed.

Lemma updateStory_title_frame_witness :
  (storage sampleWorld = [] ++ novel :: [poems] ∧
   Project.stories novel = Some ([chapter1] ++ chapter2 :: []) ∧
   Forall (λ q, Story.id chapter2 ∉ storyIdsOf q) [] ∧
   (Story.id chapter2 ∉ (Story.id <$> [chapter1])) ∧
   ∃ s' w',
     updateStory sampleClock "s2" (titleOnly "Finale") sampleWorld
       = (Some s', w') ∧
     s' = Story.mk "s2" "Finale" "" "p1" "" 0 "story" 20 1000 false 0 ∧
     storage w'
       = [Project.mk "p1" "Novel" "A tale" 5 1001 40 7
            (Some [chapter1; s']) (Some [hero]); poems]) ∧
  ("p1" ∈ projectIds (storage sampleWorld) ∧
   Forall (λ q, sampleIds (issued sampleWorld) ∉ storyIdsOf q)
     (storage sampleWorld) ∧
   ∃ s w1 s' w2,
     createStory sampleClock sampleIds (mkStoryData "Chapter 3" None "p1")
       sampleWorld = (s, w1) ∧
     updateStory sampleClock (Story.id s) (titleOnly "Finale") w1
       = (Some s', w2) ∧
     s' = Story.mk "id0" "Finale" "" "p1" "" 0 "story" 1000 1001 false 0 ∧
     storage w2
       = [Project.mk "p1" "Novel" "A tale" 5 1002 40 7
            (Some [chapter1; chapter2; s']) (Some [hero]); poems]).
Proof.
  destruct (updateStory_title_frame sampleClock sampleIds) as [Hframe Hcreated].
  split.
  - assert (Hpre : Forall (λ q, Story.id chapter2 ∉ storyIdsOf q) [])
      by constructor.
    assert (Hspre : Story.id chapter2 ∉ (Story.id <$> [chapter1]))
      by by_evaluation.
    split_and!; [reflexivity|reflexivity|exact Hpre|exact Hspre|].
    destruct (Hframe sampleWorld "Finale" [] [poems] novel [chapter1] []
                chapter2 eq_refl eq_refl Hpre Hspre)
      as (s' & p' & w' & Hrun & Hs & Hst & Hp & _).
    exists s', w'. split; [exact Hrun|]. split; [exact Hs|].
    rewrite Hst, Hp, Hs. reflexivity.
  - assert (Hin : "p1" ∈ projectIds (storage sampleWorld)) by by_evaluation.
    assert (Hfresh : Forall (λ q, sampleIds (issued sampleWorld) ∉ storyIdsOf q)
                       (storage sampleWorld)) by by_evaluation.
    split; [exact Hin|]. split; [exact Hfresh|].
    destruct (Hcreated sampleWorld (mkStoryData "Chapter 3" None "p1")
                "Finale" Hin Hfresh)
      as (pre & p & post & s & w1 & s' & w2 & p' & Hst & Hpre & Hp & Hcreate
          & Hupdate & Hs & Hst2 & Hp').
    destruct pre as [|q pre].
    + simpl in Hst. injection Hst as <- <-.
      exists s, w1, s', w2. split; [exact Hcreate|]. split; [exact Hupdate|].
      split; [exact Hs|]. rewrite Hst2, Hp', Hs. reflexivity.
    + exfalso. simpl in Hst. injection Hst as <- _.
      apply Hpre. simpl. apply list_elem_of_here.
Defined.

(** C8 as stated fails: the scan takes the first story that carries the
    id, which need not be the story the caller means. Two stories are
    created under the same project; an update gives the first one the id
    of the second, as [updates: any] allows; the update by the id of the
    second story then retitles its sibling, and the second story itself,
    the one the call names, stays as it was. *)
Lemma updateStory_title_frame_counterexample :
  ∃ x w1 s w2 x' w3 r w4 sibling sibling',
    createStory sampleClock sampleIds (mkStoryData "First" None "p2")
      sampleWorld = (x, w1) ∧
    createStory sampleClock sampleIds (mkStoryData "Second" None "p2") w1
      = (s, w2) ∧
    updateStory sampleClock (Story.id x) (idOnly (Story.id s)) w2
      = (Some x', w3) ∧
    storiesOf <$> storage w3 = [[chapter1; chapter2]; [sibling; s]] ∧
    updateStory sampleClock (Story.id s) (titleOnly "T2") w3 = (Some r, w4) ∧
    storiesOf <$> storage w4 = [[chapter1; chapter2]; [sibling'; s]] ∧
    Story.title sibling = "First" ∧
    Story.title sibling' = "T2" ∧
    sibling ≠ sibling' ∧
    r ≠ Story.mk (Story.id s) "T2" (Story.description s) (Story.projectId s)
          (Story.content s) (Story.wordCount s) (Story.type s)
          (Story.createdAt s) (Story.updatedAt r) (Story.isArchived s)
          (Story.order s).
Proof.
  eexists _, _, _, _, _, _, _, _, _, _.
  split; [vm_compute; reflexivity|].
  split; [vm_compute; reflexivity|].
  split; [vm_compute; reflexivity|].
  split; [vm_compute; reflexivity|].
  split; [vm_compute; reflexivity|].
  split; [vm_compute; reflexivity|].
  split; [reflexivity|]. split; [reflexivity|].
  split; [discriminate|]. vm_compute. discriminate.
Qed.

Lemma project_stamp_covers_children_witness :
  ("p1" ∈ projectIds (storage sampleWorld) ∧
   ∃ s w' p' rest,
     createStory sampleClock sampleIds (mkStoryData "Chapter 3" None "p1")
       sampleWorld = (s, w') ∧
     storage w' = p' :: rest ∧
     childrenNotAfter (Project.updatedAt p') p') ∧
  (Exists (λ p, "s1" ∈ storyIdsOf p) (storage sampleWorld) ∧
   (sampleClock 0 ≤ sampleClock 1)%Z ∧
   ∃ s' w' p' rest,
     updateStory sampleClock "s1" (titleOnly "Opening") sampleWorld
       = (Some s', w') ∧
     storage w' = p' :: rest ∧
     (Story.updatedAt s' ≤ Project.updatedAt p')%Z ∧
     childrenNotAfter (Project.updatedAt p') p') ∧
  ("p1" ∈ projectIds (storage sampleWorld) ∧
   ∃ c w' p' rest,
     createCharacter sampleClock sampleIds
       (mkCharacterData "Mentor" None "p1") sampleWorld = (c, w') ∧
     storage w' = p' :: rest ∧
     childrenNotAfter (Project.updatedAt p') p') ∧
  (Exists (λ p, "c1" ∈ characterIdsOf p) (storage sampleWorld) ∧
   (sampleClock 0 ≤ sampleClock 1)%Z ∧
   ∃ c' w' p' rest,
     updateCharacter sampleClock "c1" Character.no_updates sampleWorld
       = (Some c', w') ∧
     storage w' = p' :: rest ∧
     (Character.updatedAt c' ≤ Project.updatedAt p')%Z ∧
     childrenNotAfter (Project.updatedAt p') p').
Proof.
  assert (Hin : "p1" ∈ projectIds (storage sampleWorld)) by by_evaluation.
  assert (Hs : Exists (λ p, "s1" ∈ storyIdsOf p) (storage sampleWorld))
    by by_evaluation.
  assert (Hc : Exists (λ p, "c1" ∈ characterIdsOf p) (storage sampleWorld))
    by by_evaluation.
  assert (Hclock : (sampleClock 0 ≤ sampleClock 1)%Z) by (vm_compute; discriminate).
  assert (Hold : childrenNotAfter (sampleClock 0) novel).
  { split; simpl; repeat constructor; vm_compute; discriminate. }
  destruct (project_stamp_covers_children sampleClock sampleIds)
    as (Hcs & Hus & Hcc & Huc).
  split; [|split; [|split]].
  - split; [exact Hin|].
    destruct (Hcs sampleWorld (mkStoryData "Chapter 3" None "p1") Hin)
      as (pre & p & post & s & p' & w' & Hst & Hrun & Hst' & _ & _ & Hall).
    destruct pre as [|q pre]; simpl in Hst; injection Hst as <- Hrest.
    + exists s, w', p', post. split_and!; [done|done|by apply Hall].
    + vm_compute in Hrun. injection Hrun as _ Hw'. subst w'.
      simpl in Hst'. injection Hst' as Hq _. discriminate Hq.
  - split; [exact Hs|]. split; [exact Hclock|].
    destruct (Hus sampleWorld "s1" (titleOnly "Opening") Hs Hclock)
      as (pre & p & post & s' & p' & w' & Hst & Hrun & Hst' & _ & Hle & Hall).
    destruct pre as [|q pre]; simpl in Hst; injection Hst as <- Hrest.
    + exists s', w', p', post. split_and!; [done|done|done|by apply Hall].
    + vm_compute in Hrun. injection Hrun as _ Hw'. subst w'.
      simpl in Hst'. injection Hst' as Hq _. discriminate Hq.
  - split; [exact Hin|].
    destruct (Hcc sampleWorld (mkCharacterData "Mentor" None "p1") Hin)
      as (pre & p & post & c & p' & w' & Hst & Hrun & Hst' & _ & _ & Hall).
    destruct pre as [|q pre]; simpl in Hst; injection Hst as <- Hrest.
    + exists c, w', p', post. split_and!; [done|done|by apply Hall].
    + vm_compute in Hrun. injection Hrun as _ Hw'. subst w'.
      simpl in Hst'. injection Hst' as Hq _. discriminate Hq.
  - split; [exact Hc|]. split; [exact Hclock|].
    destruct (Huc sampleWorld "c1" Character.no_updates Hc Hclock)
      as (pre & p & post & c' & p' & w' & Hst & Hrun & Hst' & _ & Hle & Hall).
    destruct pre as [|q pre]; simpl in Hst; injection Hst as <- Hrest.
    + exists c', w', p', post. split_and!; [done|done|done|by apply Hall].
    + vm_compute in Hrun. injection Hrun as _ Hw'. subst w'.
      simpl in Hst'. injection Hst' as Hq _. discriminate Hq.
Defined.

(** C9 as stated fails: the project is stamped with the clock reading and
    nothing compares it with the children, so a stored story stamped later
    than the clock now reads stays later than its project. *)
Lemma project_stamp_counterexample :
  "p1" ∈ projectIds (storage lateWorld) ∧
  ∃ s w' p',
    createStory sampleClock sampleIds (mkStoryData "Coda" None "p1") lateWorld
      = (s, w') ∧
    storage w' = [p'] ∧
    lateStory ∈ default [] (Project.stories p') ∧
    (Project.updatedAt p' < Story.updatedAt lateStory)%Z ∧
    ¬ childrenNotAfter (Project.updatedAt p') p'.
Proof.
  split; [by_evaluation|].
  eexists _, _, _. split; [vm_compute; reflexivity|]. simpl.
  split_and!; [reflexivity|apply list_elem_of_here|reflexivity|].
  intros [Hstories _]. simpl in Hstories.
  apply Forall_cons in Hstories as [Hlate _]. vm_compute in Hlate.
  by apply Hlate.
Qed.

Lemma exactly_one_active_witness :
  (("ghost" ∉ (AIPersonality.id <$> registry (initialCompanion new_personalities))) ∧
   setActivePersonality "ghost" (initialCompanion new_personalities)
     = (tt, initialCompanion new_personalities)) ∧
  ("critic" ∈ (AIPersonality.id <$> registry (initialCompanion new_personalities)) ∧
   ∃ p, fst (getActivePersonality
               (snd (setActivePersonality "critic"
                       (initialCompanion new_personalities)))) = Some p ∧
        AIPersonality.id p = "critic").
Proof.
  destruct exactly_one_active as (_ & _ & Hunknown & Hknown).
  split.
  - assert (Hno : "ghost" ∉ (AIPersonality.id <$>
                     registry (initialCompanion new_personalities)))
      by by_evaluation.
    split; [exact Hno|]. exact (proj1 (Hunknown "ghost" _ Hno)).
  - assert (Hin : "critic" ∈ (AIPersonality.id <$>
                     registry (initialCompanion new_personalities)))
      by by_evaluation.
    split; [exact Hin|].
    destruct (Hknown "critic" _ Hin) as (p & Hp & Hid & _). by exists p.
Defined.

Lemma startWritingSession_spec_witness :
  ("" ∉ sampleMoods) ∧ ("furious" ∉ sampleMoods) ∧
  ∃ s c',
    startWritingSession sampleClock sampleSuffix sampleMoods "Draft" None
      (Some "furious") (initialCompanion new_personalities) = (s, c') ∧
    WritingSession.mood s = Some "neutral" ∧
    WritingSession.startTime s = 1001%Z ∧
    WritingSession.isActive s = true.
Proof.
  assert (Hvocab : "" ∉ sampleMoods) by by_evaluation.
  assert (Hfurious : "furious" ∉ sampleMoods) by by_evaluation.
  split; [exact Hvocab|]. split; [exact Hfurious|].
  destruct (startWritingSession_spec sampleClock sampleSuffix sampleMoods
              "Draft" None (Some "furious")
              (initialCompanion new_personalities) Hvocab)
    as (s & c' & Hrun & _ & Hstart & _ & _ & _ & _ & _ & Hact & _ & _ & Hf).
  exists s, c'. split_and!; [exact Hrun|by apply Hf|exact Hstart|exact Hact].
Defined.

(** * Further properties of the project service *)

Lemma removeFirst_absent (k : string) (ids : list string) :
  k ∉ ids → removeFirst k ids = ids.
Proof.
  induction ids as [|x ids IH]; intros Hk; [done|]. simpl.
  apply not_elem_of_cons in Hk as [Hne Hk].
  destruct (decide (x = k)); [congruence|]. by rewrite IH.
Qed.

Lemma removeFirst_middle (k : string) (a b : list string) :
  k ∉ a → removeFirst k (a ++ k :: b) = a ++ b.
Proof.
  induction a as [|x a IH]; intros Hk; simpl.
  - by destruct (decide (k = k)).
  - apply not_elem_of_cons in Hk as [Hne Hk].
    destruct (decide (x = k)); [congruence|]. by rewrite IH.
Qed.

Lemma removeFirst_occurrences (k : string) (ids : list string) :
  occurrences k (removeFirst k ids) = pred (occurrences k ids).
Proof.
  unfold occurrences. induction ids as [|x ids IH]; [done|]. simpl.
  destruct (decide (x = k)) as [->|Hne].
  - by rewrite filter_cons_True.
  - rewrite !filter_cons_False by done. exact IH.
Qed.

Lemma removeFirst_others (k : string) (ids : list string) :
  filter (λ x, x ≠ k) (removeFirst k ids) = filter (λ x, x ≠ k) ids.
Proof.
  induction ids as [|x ids IH]; [done|]. simpl.
  destruct (decide (x = k)) as [->|Hne].
  - by rewrite filter_cons_False by (intros H; by apply H).
  - rewrite !filter_cons_True by done. by rewrite IH.
Qed.

Lemma occurrences_pos (k : string) (ids : list string) :
  k ∈ ids ↔ 0 < occurrences k ids.
Proof.
  unfold occurrences. induction ids as [|x ids IH]; simpl.
  - split; [by intros ?%not_elem_of_nil|lia].
  - destruct (decide (x = k)) as [->|Hne].
    + rewrite filter_cons_True by done. simpl. split; [lia|].
      intros _. apply list_elem_of_here.
    + rewrite filter_cons_False by done. rewrite <- IH.
      rewrite elem_of_cons. split; [|by right].
      intros [Heq|Hin]; [congruence|done].
Qed.

Lemma occurrences_none (k : string) (ids : list string) :
  occurrences k ids = 0 → filter (λ x, x ≠ k) ids = ids.
Proof.
  unfold occurrences. induction ids as [|x ids IH]; [done|].
  destruct (decide (x = k)) as [->|Hne].
  - by rewrite filter_cons_True.
  - rewrite filter_cons_False by done. intros H.
    rewrite filter_cons_True by done. by rewrite IH.
Qed.

Lemma allStoryIds_Exists (k : string) (projects : list Project.t) :
  k ∈ allStoryIds projects ↔ Exists (λ p, k ∈ storyIdsOf p) projects.
Proof.
  unfold allStoryIds. rewrite list_elem_of_bind, Exists_exists.
  split; intros (p & H1 & H2); by exists p.
Qed.

Lemma allCharacterIds_Exists (k : string) (projects : list Project.t) :
  k ∈ allCharacterIds projects ↔ Exists (λ p, k ∈ characterIdsOf p) projects.
Proof.
  unfold allCharacterIds. rewrite list_elem_of_bind, Exists_exists.
  split; intros (p & H1 & H2); by exists p.
Qed.

Lemma allStoryIds_absent (k : string) (projects : list Project.t) :
  k ∉ allStoryIds projects ↔ Forall (λ p, k ∉ storyIdsOf p) projects.
Proof.
  rewrite allStoryIds_Exists. split.
  - intros H. apply not_Exists_Forall in H; [|apply _].
    eapply Forall_impl; [exact H|]. by simpl.
  - intros H. apply Forall_not_Exists.
    eapply Forall_impl; [exact H|]. by simpl.
Qed.

Lemma allCharacterIds_absent (k : string) (projects : list Project.t) :
  k ∉ allCharacterIds projects ↔ Forall (λ p, k ∉ characterIdsOf p) projects.
Proof.
  rewrite allCharacterIds_Exists. split.
  - intros H. apply not_Exists_Forall in H; [|apply _].
    eapply Forall_impl; [exact H|]. by simpl.
  - intros H. apply Forall_not_Exists.
    eapply Forall_impl; [exact H|]. by simpl.
Qed.

Lemma allStoryIds_split (pre post : list Project.t) (p : Project.t) :
  allStoryIds (pre ++ p :: post)
    = allStoryIds pre ++ storyIdsOf p ++ allStoryIds post.
Proof. unfold allStoryIds. by rewrite bind_app, bind_cons. Qed.

Lemma allCharacterIds_split (pre post : list Project.t) (p : Project.t) :
  allCharacterIds (pre ++ p :: post)
    = allCharacterIds pre ++ characterIdsOf p ++ allCharacterIds post.
Proof. unfold allCharacterIds. by rewrite bind_app, bind_cons. Qed.

Lemma removeFirst_elem_of (k y : string) (ids : list string) :
  y ∈ removeFirst k ids → y ∈ ids.
Proof.
  induction ids as [|x ids IH]; [done|]. simpl.
  destruct (decide (x = k)).
  - intros H. by apply list_elem_of_further.
  - intros [->|H]%elem_of_cons; [apply list_elem_of_here|].
    apply list_elem_of_further. by apply IH.
Qed.

Lemma removeFirst_NoDup (k : string) (ids : list string) :
  NoDup ids → NoDup (removeFirst k ids).
Proof.
  induction 1 as [|x ids Hx Hnd IH]; [constructor|]. simpl.
  destruct (decide (x = k)); [done|].
  constructor; [|done]. intros H. by apply Hx, (removeFirst_elem_of k).
Qed.

Lemma NoDup_insert_middle (a b c : list string) (x : string) :
  NoDup (a ++ b ++ c) → x ∉ a ++ b ++ c → NoDup (a ++ (b ++ [x]) ++ c).
Proof.
  intros Hnd Hx.
  assert (Hperm : a ++ (b ++ [x]) ++ c ≡ₚ x :: a ++ b ++ c).
  { rewrite <- (assoc_L (++) b). simpl. rewrite (assoc_L (++) a).
    rewrite <- Permutation_middle. by rewrite <- (assoc_L (++) a). }
  rewrite Hperm. by constructor.
Qed.

Section ProjectServiceMore.

Variable clock : nat -> Timestamp.
Variable generateId : nat -> string.
Variable calculateProjectWordCount : string -> list Project.t -> Z.

(** *** What a delete does to the identifiers of the snapshot *)

Lemma deleteStory_ids (w : World) (storyId : string) :
  fst (deleteStory clock storyId w)
    = bool_decide (storyId ∈ allStoryIds (storage w)) ∧
  allStoryIds (storage (snd (deleteStory clock storyId w)))
    = removeFirst storyId (allStoryIds (storage w)) ∧
  saves (snd (deleteStory clock storyId w))
    = (if fst (deleteStory clock storyId w) then S (saves w) else saves w).
Proof.
  destruct (decide (storyId ∈ allStoryIds (storage w))) as [Hin|Hno].
  - rewrite bool_decide_eq_true_2 by done.
    apply allStoryIds_Exists in Hin.
    destruct (locate_story _ _ Hin)
      as (pre & p & post & spre & s & spost & Hst & Hpre & Hp & Hspre & Hs).
    rewrite (deleteStory_hit clock w storyId pre post p spre spost s)
      by done.
    simpl. split_and!; [done| |done].
    rewrite Hst, !allStoryIds_split. unfold storyIdsOf.
    rewrite Hp. simpl. rewrite !fmap_app, fmap_cons, Hs.
    rewrite <- !(assoc_L (++)). simpl.
    rewrite !(assoc_L (++) (allStoryIds pre)).
    rewrite removeFirst_middle.
    + done.
    + apply not_elem_of_app. split; [|done]. by apply allStoryIds_absent.
  - rewrite bool_decide_eq_false_2 by done.
    rewrite deleteStory_miss by by apply allStoryIds_absent.
    simpl. by rewrite removeFirst_absent.
Qed.

Lemma deleteCharacter_ids (w : World) (characterId : string) :
  fst (deleteCharacter clock characterId w)
    = bool_decide (characterId ∈ allCharacterIds (storage w)) ∧
  allCharacterIds (storage (snd (deleteCharacter clock characterId w)))
    = removeFirst characterId (allCharacterIds (storage w)) ∧
  saves (snd (deleteCharacter clock characterId w))
    = (if fst (deleteCharacter clock characterId w)
       then S (saves w) else saves w).
Proof.
  destruct (decide (characterId ∈ allCharacterIds (storage w))) as [Hin|Hno].
  - rewrite bool_decide_eq_true_2 by done.
    apply allCharacterIds_Exists in Hin.
    destruct (locate_character _ _ Hin)
      as (pre & p & post & cpre & c & cpost & Hst & Hpre & Hp & Hcpre & Hc).
    rewrite (deleteCharacter_hit clock w characterId pre post p cpre cpost c)
      by done.
    simpl. split_and!; [done| |done].
    rewrite Hst, !allCharacterIds_split. unfold characterIdsOf.
    rewrite Hp. simpl. rewrite !fmap_app, fmap_cons, Hc.
    rewrite <- !(assoc_L (++)). simpl.
    rewrite !(assoc_L (++) (allCharacterIds pre)).
    rewrite removeFirst_middle.
    + done.
    + apply not_elem_of_app. split; [|done]. by apply allCharacterIds_absent.
  - rewrite bool_decide_eq_false_2 by done.
    rewrite deleteCharacter_miss by by apply allCharacterIds_absent.
    simpl. by rewrite removeFirst_absent.
Qed.

(** X1. [deleteStory] ([deleteCharacter]) answers true exactly when the id
    occurs among the stories (characters) of the snapshot; the identifiers
    of the snapshot it leaves are those of before without the first
    occurrence of the id, in scan order, so that the id occurs once less
    and every other identifier as before; it writes to the backend once
    when it answers true and not at all when it answers false. *)
Theorem delete_removes_first_occurrence :
  (∀ (w : World) (storyId : string),
     fst (deleteStory clock storyId w)
       = bool_decide (storyId ∈ allStoryIds (storage w)) ∧
     allStoryIds (storage (snd (deleteStory clock storyId w)))
       = removeFirst storyId (allStoryIds (storage w)) ∧
     occurrences storyId
       (allStoryIds (storage (snd (deleteStory clock storyId w))))
       = pred (occurrences storyId (allStoryIds (storage w))) ∧
     filter (λ x, x ≠ storyId)
       (allStoryIds (storage (snd (deleteStory clock storyId w))))
       = filter (λ x, x ≠ storyId) (allStoryIds (storage w)) ∧
     saves (snd (deleteStory clock storyId w))
       = (if fst (deleteStory clock storyId w)
          then S (saves w) else saves w)) ∧
  (∀ (w : World) (characterId : string),
     fst (deleteCharacter clock characterId w)
       = bool_decide (characterId ∈ allCharacterIds (storage w)) ∧
     allCharacterIds (storage (snd (deleteCharacter clock characterId w)))
       = removeFirst characterId (allCharacterIds (storage w)) ∧
     occurrences characterId
       (allCharacterIds (storage (snd (deleteCharacter clock characterId w))))
       = pred (occurrences characterId (allCharacterIds (storage w))) ∧
     filter (λ x, x ≠ characterId)
       (allCharacterIds (storage (snd (deleteCharacter clock characterId w))))
       = filter (λ x, x ≠ characterId) (allCharacterIds (storage w)) ∧
     saves (snd (deleteCharacter clock characterId w))
       = (if fst (deleteCharacter clock characterId w)
          then S (saves w) else saves w)).
Proof.
  split.
  - intros w storyId.
    destruct (deleteStory_ids w storyId) as (Hr & Hids & Hsaves).
    split_and!; [exact Hr|exact Hids| | |exact Hsaves].
    + rewrite Hids. apply removeFirst_occurrences.
    + rewrite Hids. apply removeFirst_others.
  - intros w characterId.
    destruct (deleteCharacter_ids w characterId) as (Hr & Hids & Hsaves).
    split_and!; [exact Hr|exact Hids| | |exact Hsaves].
    + rewrite Hids. apply removeFirst_occurrences.
    + rewrite Hids. apply removeFirst_others.
Qed.

Lemma repeatedly_until_gone (op : M bool) (ids : World → list string)
    (k : string) :
  (∀ w, fst (op w) = bool_decide (k ∈ ids w) ∧
        ids (snd (op w)) = removeFirst k (ids w)) →
  ∀ n w, occurrences k (ids w) = n →
    ∃ w', repeatedly (S n) op w = (replicate n true ++ [false], w') ∧
          ids w' = filter (λ x, x ≠ k) (ids w).
Proof.
  intros Hop. induction n as [|n IH]; intros w Hn.
  - destruct (Hop w) as [Hr Hids]. simpl. unfold bind, ret.
    destruct (op w) as [r w1] eqn:E. simpl in *.
    assert (Hno : k ∉ ids w).
    { rewrite occurrences_pos. lia. }
    rewrite bool_decide_eq_false_2 in Hr by done. subst r.
    exists w1. split; [done|].
    rewrite Hids, removeFirst_absent by done.
    symmetry. by apply occurrences_none.
  - destruct (Hop w) as [Hr Hids].
    change (repeatedly (S (S n)) op w)
      with (let (r, w1) := op w in
            let (rs, w2) := repeatedly (S n) op w1 in (r :: rs, w2)).
    destruct (op w) as [r w1] eqn:E. simpl in Hr, Hids.
    assert (Hin : k ∈ ids w).
    { rewrite occurrences_pos. lia. }
    rewrite bool_decide_eq_true_2 in Hr by done. subst r.
    destruct (IH w1) as (w' & Hrun & Hids').
    { rewrite Hids, removeFirst_occurrences, Hn. done. }
    rewrite Hrun. exists w'. split; [done|].
    by rewrite Hids', Hids, removeFirst_others.
Qed.

(** X2. Called again and again with the same id, [deleteStory]
    ([deleteCharacter]) answers true exactly as many times as the id occurs
    in the snapshot and false at the next call; by then every story
    (character) with that id is gone and the others are all still there, in
    their order. *)
Theorem delete_until_gone :
  (∀ (w : World) (storyId : string),
     ∃ w',
       repeatedly (S (occurrences storyId (allStoryIds (storage w))))
         (deleteStory clock storyId) w
       = (replicate (occurrences storyId (allStoryIds (storage w))) true
            ++ [false], w') ∧
       allStoryIds (storage w')
         = filter (λ x, x ≠ storyId) (allStoryIds (storage w))) ∧
  (∀ (w : World) (characterId : string),
     ∃ w',
       repeatedly
         (S (occurrences characterId (allCharacterIds (storage w))))
         (deleteCharacter clock characterId) w
       = (replicate (occurrences characterId (allCharacterIds (storage w)))
            true ++ [false], w') ∧
       allCharacterIds (storage w')
         = filter (λ x, x ≠ characterId) (allCharacterIds (storage w))).
Proof.
  split.
  - intros w storyId.
    apply (repeatedly_until_gone (deleteStory clock storyId)
             (λ w, allStoryIds (storage w)) storyId); [|done].
    intros w0. destruct (deleteStory_ids w0 storyId) as (H1 & H2 & _). done.
  - intros w characterId.
    apply (repeatedly_until_gone (deleteCharacter clock characterId)
             (λ w, allCharacterIds (storage w)) characterId); [|done].
    intros w0. destruct (deleteCharacter_ids w0 characterId) as (H1 & H2 & _).
    done.
Qed.

(** *** What the story and character methods leave alone *)

Lemma createStory_frame (data : StoryData) (w : World) :
  events (snd (createStory clock generateId data w)) = events w ∧
  projectCore <$> storage (snd (createStory clock generateId data w))
    = projectCore <$> storage w ∧
  Project.characters <$> storage (snd (createStory clock generateId data w))
    = Project.characters <$> storage w.
Proof.
  destruct (decide (sd_projectId data ∈ projectIds (storage w))) as [Hin|Hno].
  - destruct (list_find_present Project.id _ _ Hin)
      as (pre & p & post & Hst & Hpre & Hp).
    rewrite (createStory_hit clock generateId data w pre post p) by done.
    simpl. by rewrite Hst, !fmap_app, !fmap_cons.
  - by rewrite createStory_miss.
Qed.

Lemma updateStory_frame (k : string) (updates : Story.updates) (w : World) :
  events (snd (updateStory clock k updates w)) = events w ∧
  projectCore <$> storage (snd (updateStory clock k updates w))
    = projectCore <$> storage w ∧
  Project.characters <$> storage (snd (updateStory clock k updates w))
    = Project.characters <$> storage w.
Proof.
  destruct (decide (k ∈ allStoryIds (storage w))) as [Hin|Hno].
  - apply allStoryIds_Exists in Hin.
    destruct (locate_story _ _ Hin)
      as (pre & p & post & xpre & x & xpost & Hst & Hpre & Hp & Hxpre & Hx).
    rewrite (updateStory_hit clock w k updates pre post p xpre xpost x)
      by done.
    simpl. by rewrite Hst, !fmap_app, !fmap_cons.
  - rewrite updateStory_miss by by apply allStoryIds_absent. done.
Qed.

Lemma deleteStory_frame (k : string) (w : World) :
  events (snd (deleteStory clock k w)) = events w ∧
  projectCore <$> storage (snd (deleteStory clock k w))
    = projectCore <$> storage w ∧
  Project.characters <$> storage (snd (deleteStory clock k w))
    = Project.characters <$> storage w.
Proof.
  destruct (decide (k ∈ allStoryIds (storage w))) as [Hin|Hno].
  - apply allStoryIds_Exists in Hin.
    destruct (locate_story _ _ Hin)
      as (pre & p & post & xpre & x & xpost & Hst & Hpre & Hp & Hxpre & Hx).
    rewrite (deleteStory_hit clock w k pre post p xpre xpost x) by done.
    simpl. by rewrite Hst, !fmap_app, !fmap_cons.
  - rewrite deleteStory_miss by by apply allStoryIds_absent. done.
Qed.

Lemma createCharacter_frame (data : CharacterData) (w : World) :
  events (snd (createCharacter clock generateId data w)) = events w ∧
  projectCore <$> storage (snd (createCharacter clock generateId data w))
    = projectCore <$> storage w ∧
  Project.stories <$> storage (snd (createCharacter clock generateId data w))
    = Project.stories <$> storage w.
Proof.
  destruct (decide (cd_projectId data ∈ projectIds (storage w))) as [Hin|Hno].
  - destruct (list_find_present Project.id _ _ Hin)
      as (pre & p & post & Hst & Hpre & Hp).
    rewrite (createCharacter_hit clock generateId data w pre post p) by done.
    simpl. by rewrite Hst, !fmap_app, !fmap_cons.
  - by rewrite createCharacter_miss.
Qed.

Lemma updateCharacter_frame (k : string) (updates : Character.updates) (w : World) :
  events (snd (updateCharacter clock k updates w)) = events w ∧
  projectCore <$> storage (snd (updateCharacter clock k updates w))
    = projectCore <$> storage w ∧
  Project.stories <$> storage (snd (updateCharacter clock k updates w))
    = Project.stories <$> storage w.
Proof.
  destruct (decide (k ∈ allCharacterIds (storage w))) as [Hin|Hno].
  - apply allCharacterIds_Exists in Hin.
    destruct (locate_character _ _ Hin)
      as (pre & p & post & xpre & x & xpost & Hst & Hpre & Hp & Hxpre & Hx).
    rewrite (updateCharacter_hit clock w k updates pre post p xpre xpost x)
      by done.
    simpl. by rewrite Hst, !fmap_app, !fmap_cons.
  - rewrite updateCharacter_miss by by apply allCharacterIds_absent. done.
Qed.

Lemma deleteCharacter_frame (k : string) (w : World) :
  events (snd (deleteCharacter clock k w)) = events w ∧
  projectCore <$> storage (snd (deleteCharacter clock k w))
    = projectCore <$> storage w ∧
  Project.stories <$> storage (snd (deleteCharacter clock k w))
    = Project.stories <$> storage w.
Proof.
  destruct (decide (k ∈ allCharacterIds (storage w))) as [Hin|Hno].
  - apply allCharacterIds_Exists in Hin.
    destruct (locate_character _ _ Hin)
      as (pre & p & post & xpre & x & xpost & Hst & Hpre & Hp & Hxpre & Hx).
    rewrite (deleteCharacter_hit clock w k pre post p xpre xpost x) by done.
    simpl. by rewrite Hst, !fmap_app, !fmap_cons.
  - rewrite deleteCharacter_miss by by apply allCharacterIds_absent. done.
Qed.

(** X3. The story methods touch nothing but the story list and the updatedAt
    of the project that holds it: whatever the arguments, [createStory],
    [updateStory] and [deleteStory] emit no event, leave the number and
    order of the projects and each project's id, title, description,
    createdAt, lastEditedAt and wordCount as stored, and leave every list of
    characters as it was. *)
Theorem story_methods_frame :
  (∀ (data : StoryData) (w : World),
     events (snd (createStory clock generateId data w)) = events w ∧
     projectCore <$> storage (snd (createStory clock generateId data w))
       = projectCore <$> storage w ∧
     Project.characters <$> storage (snd (createStory clock generateId data w))
       = Project.characters <$> storage w) ∧
  (∀ (k : string) (updates : Story.updates) (w : World),
     events (snd (updateStory clock k updates w)) = events w ∧
     projectCore <$> storage (snd (updateStory clock k updates w))
       = projectCore <$> storage w ∧
     Project.characters <$> storage (snd (updateStory clock k updates w))
       = Project.characters <$> storage w) ∧
  (∀ (k : string) (w : World),
     events (snd (deleteStory clock k w)) = events w ∧
     projectCore <$> storage (snd (deleteStory clock k w))
       = projectCore <$> storage w ∧
     Project.characters <$> storage (snd (deleteStory clock k w))
       = Project.characters <$> storage w).
Proof.
  split; [|split].
  - apply createStory_frame.
  - apply updateStory_frame.
  - apply deleteStory_frame.
Qed.

(** X4. The character methods touch nothing but the character list and the updatedAt
    of the project that holds it: whatever the arguments, [createCharacter],
    [updateCharacter] and [deleteCharacter] emit no event, leave the number and
    order of the projects and each project's id, title, description,
    createdAt, lastEditedAt and wordCount as stored, and leave every list of
    stories as it was. *)
Theorem character_methods_frame :
  (∀ (data : CharacterData) (w : World),
     events (snd (createCharacter clock generateId data w)) = events w ∧
     projectCore <$> storage (snd (createCharacter clock generateId data w))
       = projectCore <$> storage w ∧
     Project.stories <$> storage (snd (createCharacter clock generateId data w))
       = Project.stories <$> storage w) ∧
  (∀ (k : string) (updates : Character.updates) (w : World),
     events (snd (updateCharacter clock k updates w)) = events w ∧
     projectCore <$> storage (snd (updateCharacter clock k updates w))
       = projectCore <$> storage w ∧
     Project.stories <$> storage (snd (updateCharacter clock k updates w))
       = Project.stories <$> storage w) ∧
  (∀ (k : string) (w : World),
     events (snd (deleteCharacter clock k w)) = events w ∧
     projectCore <$> storage (snd (deleteCharacter clock k w))
       = projectCore <$> storage w ∧
     Project.stories <$> storage (snd (deleteCharacter clock k w))
       = Project.stories <$> storage w).
Proof.
  split; [|split].
  - apply createCharacter_frame.
  - apply updateCharacter_frame.
  - apply deleteCharacter_frame.
Qed.

(** *** Creation under an existing project *)

(** X5. Under a projectId some project carries, [createStory]
    ([createCharacter]) puts the entity it returns at the end of the list of
    the first project with that id, an absent list counting as empty,
    stamps that project's updatedAt with the entity's own stamp and writes
    the snapshot once; every other project is as before, and the
    identifiers of the snapshot are those of before with the new one added
    at the end of that project's. *)
Theorem create_appends :
  (∀ (data : StoryData) (w : World),
     sd_projectId data ∈ projectIds (storage w) →
     ∃ pre p post x w',
       storage w = pre ++ p :: post ∧
       (sd_projectId data ∉ projectIds pre) ∧
       Project.id p = sd_projectId data ∧
       createStory clock generateId data w = (x, w') ∧
       Story.id x = generateId (issued w) ∧
       Story.createdAt x = clock (ticks w) ∧
       Story.updatedAt x = clock (ticks w) ∧
       Story.content x = "" ∧ Story.wordCount x = 0%Z ∧
       Story.type x = "story" ∧ Story.isArchived x = false ∧
       Story.order x = 0%Z ∧
       storage w' =
         pre ++ Project.set_updatedAt (Story.updatedAt x)
                  (Project.set_stories (storiesOf p ++ [x]) p) :: post ∧
       saves w' = S (saves w) ∧
       allStoryIds (storage w')
         = allStoryIds pre ++ (storyIdsOf p ++ [Story.id x]) ++ allStoryIds post) ∧
  (∀ (data : CharacterData) (w : World),
     cd_projectId data ∈ projectIds (storage w) →
     ∃ pre p post x w',
       storage w = pre ++ p :: post ∧
       (cd_projectId data ∉ projectIds pre) ∧
       Project.id p = cd_projectId data ∧
       createCharacter clock generateId data w = (x, w') ∧
       Character.id x = generateId (issued w) ∧
       Character.createdAt x = clock (ticks w) ∧
       Character.updatedAt x = clock (ticks w) ∧
       Character.role x = "supporting" ∧ Character.age x = None ∧
       storage w' =
         pre ++ Project.set_updatedAt (Character.updatedAt x)
                  (Project.set_characters (charactersOf p ++ [x]) p) :: post ∧
       saves w' = S (saves w) ∧
       allCharacterIds (storage w')
         = allCharacterIds pre ++ (characterIdsOf p ++ [Character.id x]) ++ allCharacterIds post).
Proof.
  split.
  - intros data w Hin.
    destruct (list_find_present Project.id _ _ Hin)
      as (pre & p & post & Hst & Hpre & Hp).
    exists pre, p, post. eexists _, _.
    split_and!; [done|done|done|by apply createStory_hit|..]; try done.
    simpl. rewrite allStoryIds_split. unfold storyIdsOf, storiesOf. simpl.
    by rewrite fmap_app.
  - intros data w Hin.
    destruct (list_find_present Project.id _ _ Hin)
      as (pre & p & post & Hst & Hpre & Hp).
    exists pre, p, post. eexists _, _.
    split_and!; [done|done|done|by apply createCharacter_hit|..]; try done.
    simpl. rewrite allCharacterIds_split. unfold characterIdsOf, charactersOf. simpl.
    by rewrite fmap_app.
Qed.

(** X6. A story (character) created under an existing project with an
    identifier the snapshot does not hold yet, and then deleted by the
    identifier it was given, is found and removed: the delete answers true
    and every project holds the stories (characters) it held before the
    creation, in their order; the two calls wrote to the backend twice. *)
Theorem create_then_delete :
  (∀ (data : StoryData) (w : World),
     sd_projectId data ∈ projectIds (storage w) →
     generateId (issued w) ∉ allStoryIds (storage w) →
     ∃ x w1 w2,
       createStory clock generateId data w = (x, w1) ∧
       deleteStory clock (Story.id x) w1 = (true, w2) ∧
       storiesOf <$> storage w2 = storiesOf <$> storage w ∧
       saves w2 = S (S (saves w))) ∧
  (∀ (data : CharacterData) (w : World),
     cd_projectId data ∈ projectIds (storage w) →
     generateId (issued w) ∉ allCharacterIds (storage w) →
     ∃ x w1 w2,
       createCharacter clock generateId data w = (x, w1) ∧
       deleteCharacter clock (Character.id x) w1 = (true, w2) ∧
       charactersOf <$> storage w2 = charactersOf <$> storage w ∧
       saves w2 = S (S (saves w))).
Proof.
  split.
  - intros data w Hin Hfresh.
    destruct (list_find_present Project.id _ _ Hin)
      as (pre & p & post & Hst & Hpre & Hp).
    apply allStoryIds_absent in Hfresh. rewrite Hst in Hfresh.
    apply Forall_app in Hfresh as [Hfpre Hfpost].
    apply Forall_cons in Hfpost as [Hfp Hfpost].
    eexists _, _, _. split; [by apply createStory_hit|].
    split.
    + eapply (deleteStory_hit _ _ _ pre post _ (storiesOf p) []); simpl; done.
    + simpl. split; [|done].
      rewrite Hst, !fmap_app, !fmap_cons. unfold storiesOf at 1. simpl.
      by rewrite app_nil_r.
  - intros data w Hin Hfresh.
    destruct (list_find_present Project.id _ _ Hin)
      as (pre & p & post & Hst & Hpre & Hp).
    apply allCharacterIds_absent in Hfresh. rewrite Hst in Hfresh.
    apply Forall_app in Hfresh as [Hfpre Hfpost].
    apply Forall_cons in Hfpost as [Hfp Hfpost].
    eexists _, _, _. split; [by apply createCharacter_hit|].
    split.
    + eapply (deleteCharacter_hit _ _ _ pre post _ (charactersOf p) []); simpl; done.
    + simpl. split; [|done].
      rewrite Hst, !fmap_app, !fmap_cons. unfold charactersOf at 1. simpl.
      by rewrite app_nil_r.
Qed.

(** *** Uniqueness of the identifiers *)

Lemma updateStory_ids (k : string) (updates : Story.updates) (w : World) :
  Story.u_id updates = None →
  allStoryIds (storage (snd (updateStory clock k updates w)))
    = allStoryIds (storage w).
Proof.
  intros Hu.
  destruct (decide (k ∈ allStoryIds (storage w))) as [Hin|Hno].
  - apply allStoryIds_Exists in Hin.
    destruct (locate_story _ _ Hin)
      as (pre & p & post & xpre & x & xpost & Hst & Hpre & Hp & Hxpre & Hx).
    rewrite (updateStory_hit clock w k updates pre post p xpre xpost x)
      by done.
    simpl. rewrite Hst, !allStoryIds_split. unfold storyIdsOf. rewrite Hp. simpl.
    rewrite !fmap_app, !fmap_cons. simpl. by rewrite Hu.
  - rewrite updateStory_miss by by apply allStoryIds_absent. done.
Qed.

Lemma createStory_NoDup (data : StoryData) (w : World) :
  NoDup (allStoryIds (storage w)) →
  generateId (issued w) ∉ allStoryIds (storage w) →
  NoDup (allStoryIds (storage (snd (createStory clock generateId data w)))).
Proof.
  intros Hnd Hfresh.
  destruct (decide (sd_projectId data ∈ projectIds (storage w))) as [Hin|Hno].
  - destruct (list_find_present Project.id _ _ Hin)
      as (pre & p & post & Hst & Hpre & Hp).
    rewrite (createStory_hit clock generateId data w pre post p) by done.
    simpl. rewrite Hst, allStoryIds_split in Hnd, Hfresh.
    rewrite allStoryIds_split. unfold storyIdsOf at 1. simpl.
    rewrite fmap_app. simpl. by apply NoDup_insert_middle.
  - by rewrite createStory_miss.
Qed.

Lemma updateCharacter_ids (k : string) (updates : Character.updates) (w : World) :
  Character.u_id updates = None →
  allCharacterIds (storage (snd (updateCharacter clock k updates w)))
    = allCharacterIds (storage w).
Proof.
  intros Hu.
  destruct (decide (k ∈ allCharacterIds (storage w))) as [Hin|Hno].
  - apply allCharacterIds_Exists in Hin.
    destruct (locate_character _ _ Hin)
      as (pre & p & post & xpre & x & xpost & Hst & Hpre & Hp & Hxpre & Hx).
    rewrite (updateCharacter_hit clock w k updates pre post p xpre xpost x)
      by done.
    simpl. rewrite Hst, !allCharacterIds_split. unfold characterIdsOf. rewrite Hp. simpl.
    rewrite !fmap_app, !fmap_cons. simpl. by rewrite Hu.
  - rewrite updateCharacter_miss by by apply allCharacterIds_absent. done.
Qed.

Lemma createCharacter_NoDup (data : CharacterData) (w : World) :
  NoDup (allCharacterIds (storage w)) →
  generateId (issued w) ∉ allCharacterIds (storage w) →
  NoDup (allCharacterIds (storage (snd (createCharacter clock generateId data w)))).
Proof.
  intros Hnd Hfresh.
  destruct (decide (cd_projectId data ∈ projectIds (storage w))) as [Hin|Hno].
  - destruct (list_find_present Project.id _ _ Hin)
      as (pre & p & post & Hst & Hpre & Hp).
    rewrite (createCharacter_hit clock generateId data w pre post p) by done.
    simpl. rewrite Hst, allCharacterIds_split in Hnd, Hfresh.
    rewrite allCharacterIds_split. unfold characterIdsOf at 1. simpl.
    rewrite fmap_app. simpl. by apply NoDup_insert_middle.
  - by rewrite createCharacter_miss.
Qed.

(** X7. Store-wide uniqueness of the story (character) identifiers is kept
    by the three methods: a delete keeps it; an update whose updates carry
    no id leaves the identifiers of the snapshot exactly as they were, in
    their order; a creation keeps it when the identifier it draws is not in
    the snapshot yet. *)
Theorem identifiers_stay_unique :
  (∀ (w : World) (k : string),
     NoDup (allStoryIds (storage w)) →
     NoDup (allStoryIds (storage (snd (deleteStory clock k w))))) ∧
  (∀ (w : World) (k : string) (updates : Story.updates),
     Story.u_id updates = None →
     allStoryIds (storage (snd (updateStory clock k updates w)))
       = allStoryIds (storage w)) ∧
  (∀ (w : World) (data : StoryData),
     NoDup (allStoryIds (storage w)) →
     generateId (issued w) ∉ allStoryIds (storage w) →
     NoDup (allStoryIds
              (storage (snd (createStory clock generateId data w))))) ∧
  (∀ (w : World) (k : string),
     NoDup (allCharacterIds (storage w)) →
     NoDup (allCharacterIds (storage (snd (deleteCharacter clock k w))))) ∧
  (∀ (w : World) (k : string) (updates : Character.updates),
     Character.u_id updates = None →
     allCharacterIds (storage (snd (updateCharacter clock k updates w)))
       = allCharacterIds (storage w)) ∧
  (∀ (w : World) (data : CharacterData),
     NoDup (allCharacterIds (storage w)) →
     generateId (issued w) ∉ allCharacterIds (storage w) →
     NoDup (allCharacterIds
              (storage (snd (createCharacter clock generateId data w))))).
Proof.
  split_and!.
  - intros w k Hnd.
    destruct (deleteStory_ids w k) as (_ & -> & _).
    by apply removeFirst_NoDup.
  - intros w k updates. apply updateStory_ids.
  - intros w data. apply createStory_NoDup.
  - intros w k Hnd.
    destruct (deleteCharacter_ids w k) as (_ & -> & _).
    by apply removeFirst_NoDup.
  - intros w k updates. apply updateCharacter_ids.
  - intros w data. apply createCharacter_NoDup.
Qed.

(** *** Stamps the caller cannot set *)

Lemma updateStory_stamp_ignored (k : string) (updates : Story.updates)
    (x : Timestamp) (w : World) :
  updateStory clock k (storyUpdatesStamped x updates) w
    = updateStory clock k updates w.
Proof.
  destruct (decide (k ∈ allStoryIds (storage w))) as [Hin|Hno].
  - apply allStoryIds_Exists in Hin.
    destruct (locate_story _ _ Hin)
      as (pre & p & post & spre & s & spost & Hst & Hpre & Hp & Hspre & Hs).
    by rewrite !(updateStory_hit clock w k _ pre post p spre spost s).
  - by rewrite !updateStory_miss by by apply allStoryIds_absent.
Qed.

Lemma updateCharacter_stamp_ignored (k : string)
    (updates : Character.updates) (x : Timestamp) (w : World) :
  updateCharacter clock k (characterUpdatesStamped x updates) w
    = updateCharacter clock k updates w.
Proof.
  destruct (decide (k ∈ allCharacterIds (storage w))) as [Hin|Hno].
  - apply allCharacterIds_Exists in Hin.
    destruct (locate_character _ _ Hin)
      as (pre & p & post & cpre & c & cpost & Hst & Hpre & Hp & Hcpre & Hc).
    by rewrite !(updateCharacter_hit clock w k _ pre post p cpre cpost c).
  - by rewrite !updateCharacter_miss by by apply allCharacterIds_absent.
Qed.

(** X8. The stamps are the methods' own: an updatedAt carried by the
    updates of [updateStory] or [updateCharacter], and an updatedAt or
    lastEditedAt carried by the partial of [updateProjectSync], change
    neither the result nor the world the call leaves. *)
Theorem caller_stamps_ignored :
  (∀ (k : string) (updates : Story.updates) (x : Timestamp) (w : World),
     updateStory clock k (storyUpdatesStamped x updates) w
       = updateStory clock k updates w) ∧
  (∀ (k : string) (updates : Character.updates) (x : Timestamp) (w : World),
     updateCharacter clock k (characterUpdatesStamped x updates) w
       = updateCharacter clock k updates w) ∧
  (∀ (id : string) (data : Project.data) (x y : Timestamp) (w : World),
     updateProjectSync clock calculateProjectWordCount id
       (projectDataStamped x y data) w
     = updateProjectSync clock calculateProjectWordCount id data w).
Proof.
  split; [|split].
  - apply updateStory_stamp_ignored.
  - apply updateCharacter_stamp_ignored.
  - intros id data x y w. unfold updateProjectSync, bind, getAllProjects.
    by destruct (list_find _ _) as [[index found]|].
Qed.

(** *** updateCharacter *)

(** X9. [updateCharacter] stops at the first project that holds a
    character with the id and at the first such character in it. The
    character it returns has every field taken from the updates where they
    carry it and from the stored character where they do not, except
    updatedAt, which is the clock reading. The snapshot it writes, in one
    save and without an event, is the loaded one with that character
    replaced at its place and the project's updatedAt set to the next clock
    reading, every other field of the project and every other project being
    as loaded. When no project holds the id it returns null and the world
    is as before. *)
Theorem updateCharacter_spec :
  (∀ (w : World) (characterId : string) (updates : Character.updates),
     characterId ∈ allCharacterIds (storage w) →
     ∃ pre p post cpre c cpost c' p',
       storage w = pre ++ p :: post ∧
       (characterId ∉ allCharacterIds pre) ∧
       Project.characters p = Some (cpre ++ c :: cpost) ∧
       (characterId ∉ (Character.id <$> cpre)) ∧
       Character.id c = characterId ∧
       c' = Character.mk
              (default (Character.id c) (Character.u_id updates))
              (default (Character.name c) (Character.u_name updates))
              (default (Character.description c)
                 (Character.u_description updates))
              (default (Character.projectId c)
                 (Character.u_projectId updates))
              (default (Character.role c) (Character.u_role updates))
              (default (Character.age c) (Character.u_age updates))
              (default (Character.appearance c)
                 (Character.u_appearance updates))
              (default (Character.personality c)
                 (Character.u_personality updates))
              (default (Character.backstory c)
                 (Character.u_backstory updates))
              (default (Character.goals c) (Character.u_goals updates))
              (default (Character.createdAt c)
                 (Character.u_createdAt updates))
              (clock (ticks w)) ∧
       p' = Project.mk (Project.id p) (Project.title p)
              (Project.description p) (Project.createdAt p)
              (clock (S (ticks w))) (Project.lastEditedAt p)
              (Project.wordCount p) (Project.stories p)
              (Some (cpre ++ c' :: cpost)) ∧
       updateCharacter clock characterId updates w =
         (Some c',
          mkWorld (pre ++ p' :: post) (S (saves w)) (events w)
            (S (S (ticks w))) (issued w))) ∧
  (∀ (w : World) (characterId : string) (updates : Character.updates),
     characterId ∉ allCharacterIds (storage w) →
     updateCharacter clock characterId updates w = (None, w)).
Proof.
  split.
  - intros w characterId updates Hin.
    apply allCharacterIds_Exists in Hin.
    destruct (locate_character _ _ Hin)
      as (pre & p & post & cpre & c & cpost & Hst & Hpre & Hp & Hcpre & Hc).
    exists pre, p, post, cpre, c, cpost. eexists _, _.
    split_and!; [done|by apply allCharacterIds_absent|done|done|done
                |reflexivity|reflexivity|].
    rewrite (updateCharacter_hit clock w characterId updates pre post p
               cpre cpost c) by done.
    reflexivity.
  - intros w characterId updates Hno.
    apply updateCharacter_miss. by apply allCharacterIds_absent.
Qed.

End ProjectServiceMore.

(** * The patch scripts *)

Local Open Scope nat_scope.

(** ** [startswith], [find] and [in] *)

Lemma startswith_app (sub rest : list ascii) : startswith (sub ++ rest) sub = true.
Proof.
  induction sub as [|c sub IH]; [by destruct rest|]. simpl.
  by rewrite bool_decide_eq_true_2, IH.
Qed.

Lemma startswith_true (s sub : list ascii) :
  startswith s sub = true → ∃ rest, s = sub ++ rest.
Proof.
  revert s. induction sub as [|c sub IH]; intros s H; [by exists s|].
  destruct s as [|d s]; [done|]. simpl in H.
  apply andb_true_iff in H as [Hc H]. apply bool_decide_eq_true_1 in Hc.
  destruct (IH s H) as [rest ->]. exists rest. by subst.
Qed.

Lemma startswith_take (s sub : list ascii) :
  startswith (take (length sub) s) sub = startswith s sub.
Proof.
  revert s. induction sub as [|c sub IH]; intros s; [by destruct s|].
  destruct s as [|d s]; [done|]. simpl. by rewrite IH.
Qed.

Lemma find_here (sub rest : list ascii) : find sub (sub ++ rest) = Some 0.
Proof.
  destruct sub as [|c sub]; [by destruct rest|].
  change (find (c :: sub) ((c :: sub) ++ rest))
    with (if startswith ((c :: sub) ++ rest) (c :: sub) then Some 0
          else S <$> find (c :: sub) (sub ++ rest)).
  by rewrite startswith_app.
Qed.

Lemma find_unfold (sub s : list ascii) :
  find sub s = if startswith s sub then Some 0
               else match s with
                    | [] => None
                    | _ :: s' => S <$> find sub s'
                    end.
Proof. by destruct s. Qed.

Lemma find_split (sub s : list ascii) (i : nat) :
  find sub s = Some i →
  ∃ before rest, s = before ++ sub ++ rest ∧ length before = i.
Proof.
  revert i. induction s as [|c s IH]; intros i; rewrite find_unfold.
  - destruct (startswith [] sub) eqn:E; [|done].
    intros [= <-]. apply startswith_true in E as [rest E].
    by exists [], rest.
  - destruct (startswith (c :: s) sub) eqn:E.
    + intros [= <-]. apply startswith_true in E as [rest E].
      by exists [], rest.
    + destruct (find sub s) as [j|] eqn:Ej; [|done].
      intros [= <-]. destruct (IH j eq_refl) as (before & rest & -> & <-).
      by exists (c :: before), rest.
Qed.

Lemma find_contains (sub before rest : list ascii) :
  is_Some (find sub (before ++ sub ++ rest)).
Proof.
  induction before as [|c before IH]; simpl app.
  - rewrite find_here. by eexists.
  - rewrite find_unfold. destruct (startswith _ _); [by eexists|].
    destruct IH as [j ->]. by eexists.
Qed.

(** Where the first occurrence lies does not depend on what follows it. *)
Lemma find_tail (sub before rest rest' : list ascii) :
  find sub (before ++ sub ++ rest) = Some (length before) →
  find sub (before ++ sub ++ rest') = Some (length before).
Proof.
  induction before as [|c before IH]; simpl app; simpl length.
  - intros _. apply find_here.
  - rewrite !(find_unfold sub (c :: _)).
    destruct (startswith (c :: before ++ sub ++ rest) sub) eqn:E; [done|].
    destruct (find sub (before ++ sub ++ rest)) as [j|] eqn:Ej; [|done].
    intros [= ->]. rewrite (IH eq_refl).
    rewrite <- startswith_take in E. rewrite <- startswith_take.
    replace (take (length sub) (c :: before ++ sub ++ rest'))
      with (take (length sub) (c :: before ++ sub ++ rest)); [by rewrite E|].
    change (c :: before ++ sub ++ ?r) with ((c :: before) ++ sub ++ r).
    rewrite !(assoc_L (++) (c :: before)).
    rewrite (take_app_le ((c :: before) ++ sub) rest),
      (take_app_le ((c :: before) ++ sub) rest');
      [done|..]; rewrite length_app; simpl; lia.
Qed.

Lemma contains_inside (sub before l after : list ascii) :
  contains sub l = true → contains sub (before ++ l ++ after) = true.
Proof.
  unfold contains. destruct (find sub l) as [i|] eqn:E; [|done]. intros _.
  destruct (find_split _ _ _ E) as (x & y & -> & _).
  replace (before ++ (x ++ sub ++ y) ++ after)
    with ((before ++ x) ++ sub ++ (y ++ after))
    by by rewrite <- !(assoc_L (++)).
  by destruct (find_contains sub (before ++ x) (y ++ after)) as [j ->].
Qed.

(** ** The scans *)

Lemma count_char_cons_eq (c : ascii) (s : list ascii) :
  count_char c (c :: s) = S (count_char c s).
Proof. unfold count_char. by rewrite filter_cons_True. Qed.

Lemma count_char_cons_ne (c x : ascii) (s : list ascii) :
  x ≠ c → count_char c (x :: s) = count_char c s.
Proof. intros H. unfold count_char. by rewrite filter_cons_False. Qed.

Lemma count_char_free (c : ascii) (s : list ascii) :
  free_of c s → count_char c s = 0.
Proof.
  induction 1 as [|x s Hx Hs IH]; [done|].
  by rewrite count_char_cons_ne.
Qed.

Lemma free_of_take (c : ascii) (s : list ascii) (n : nat) :
  free_of c s → free_of c (take n s).
Proof. apply Forall_take. Qed.

Lemma closing_bracket_closed (body rest : list ascii) :
  ∀ k p,
    (∀ n, count_char "]" (take n body) ≤ k + count_char "[" (take n body)) →
    k + count_char "[" body = count_char "]" body →
    closing_bracket (body ++ "]"%char :: rest) k p = p + length body.
Proof.
  induction body as [|c body IH]; intros k p Hpre Hend.
  - simpl in *. rewrite Nat.add_0_r in Hend. subst k. simpl. lia.
  - simpl. case_bool_decide as Hopen; [|case_bool_decide as Hclose].
    + subst c. rewrite IH; [lia| |].
      * intros n. specialize (Hpre (S n)). simpl in Hpre.
        rewrite count_char_cons_eq, count_char_cons_ne in Hpre by done. lia.
      * rewrite count_char_cons_eq, count_char_cons_ne in Hend by done. lia.
    + subst c. destruct k as [|k].
      * specialize (Hpre 1). vm_compute in Hpre. lia.
      * rewrite IH; [lia| |].
        -- intros n. specialize (Hpre (S n)). simpl in Hpre.
           rewrite count_char_cons_eq, count_char_cons_ne in Hpre by done. lia.
        -- rewrite count_char_cons_eq, count_char_cons_ne in Hend by done. lia.
    + rewrite IH; [lia| |].
      * intros n. specialize (Hpre (S n)). simpl in Hpre.
        rewrite !count_char_cons_ne in Hpre by done. lia.
      * rewrite !count_char_cons_ne in Hend by done. lia.
Qed.

Lemma closing_bracket_unclosed (rest : list ascii) :
  ∀ k p,
    (∀ n, count_char "]" (take n rest) ≤ k + count_char "[" (take n rest)) →
    closing_bracket rest k p = p + length rest.
Proof.
  induction rest as [|c rest IH]; intros k p Hpre; simpl; [lia|].
  case_bool_decide as Hopen; [|case_bool_decide as Hclose].
  - subst c. rewrite IH; [lia|].
    intros n. specialize (Hpre (S n)). simpl in Hpre.
    rewrite count_char_cons_eq, count_char_cons_ne in Hpre by done. lia.
  - subst c. destruct k as [|k].
    + specialize (Hpre 1). vm_compute in Hpre. lia.
    + rewrite IH; [lia|].
      intros n. specialize (Hpre (S n)). simpl in Hpre.
      rewrite count_char_cons_eq, count_char_cons_ne in Hpre by done. lia.
  - rewrite IH; [lia|].
    intros n. specialize (Hpre (S n)). simpl in Hpre.
    rewrite !count_char_cons_ne in Hpre by done. lia.
Qed.

(** Conversely, a scan that stops inside the text stopped on a "]" that
    closes a run closed up to the count it started from. *)
Lemma closing_bracket_stop (rest : list ascii) :
  ∀ k p,
    closing_bracket rest k p < p + length rest →
    ∃ body after,
      rest = body ++ "]"%char :: after ∧
      closing_bracket rest k p = p + length body ∧
      (∀ n, count_char "]" (take n body) ≤ k + count_char "[" (take n body)) ∧
      k + count_char "[" body = count_char "]" body.
Proof.
  induction rest as [|c rest IH]; intros k p; simpl; [lia|].
  case_bool_decide as Hopen; [|case_bool_decide as Hclose].
  - subst c. intros Hlt.
    destruct (IH (S k) (S p)) as (body & after & -> & Heq & Hpre & Hend); [lia|].
    exists ("["%char :: body), after. split_and!; [done|simpl; lia| |].
    + intros [|n]; simpl; [unfold count_char; simpl; lia|].
      rewrite count_char_cons_eq, count_char_cons_ne by done.
      specialize (Hpre n). lia.
    + rewrite count_char_cons_eq, count_char_cons_ne by done. lia.
  - subst c. destruct k as [|k].
    + intros _. exists [], rest. split_and!; [done|simpl; lia| |done].
      intros n. rewrite take_nil. unfold count_char. simpl. lia.
    + intros Hlt.
      destruct (IH k (S p)) as (body & after & -> & Heq & Hpre & Hend); [lia|].
      exists ("]"%char :: body), after. split_and!; [done|simpl; lia| |].
      * intros [|n]; simpl; [unfold count_char; simpl; lia|].
        rewrite count_char_cons_eq, count_char_cons_ne by done.
        specialize (Hpre n). lia.
      * rewrite count_char_cons_eq, count_char_cons_ne by done. lia.
  - intros Hlt.
    destruct (IH k (S p)) as (body & after & -> & Heq & Hpre & Hend); [lia|].
    exists (c :: body), after. split_and!; [done|simpl; lia| |].
    + intros [|n]; simpl; [unfold count_char; simpl; lia|].
      rewrite !count_char_cons_ne by done. specialize (Hpre n). lia.
    + rewrite !count_char_cons_ne by done. lia.
Qed.

Lemma closing_bracket_bounds (rest : list ascii) :
  ∀ k p, p ≤ closing_bracket rest k p ≤ p + length rest.
Proof.
  induction rest as [|c rest IH]; intros k p; simpl; [lia|].
  case_bool_decide; [|case_bool_decide].
  - specialize (IH (S k) (S p)). lia.
  - destruct k as [|k]; [lia|]. specialize (IH k (S p)). lia.
  - specialize (IH k (S p)). lia.
Qed.

Lemma closing_bracket_shift (rest : list ascii) :
  ∀ k p, closing_bracket rest k p = p + closing_bracket rest k 0.
Proof.
  induction rest as [|c rest IH]; intros k p; simpl; [lia|].
  case_bool_decide; [|case_bool_decide].
  - rewrite (IH _ (S p)), (IH _ 1). lia.
  - destruct k as [|k]; [lia|]. rewrite (IH _ (S p)), (IH _ 1). lia.
  - rewrite (IH _ (S p)), (IH _ 1). lia.
Qed.

(** A scan that stops inside a text stops there whatever follows it. *)
Lemma closing_bracket_app (l r : list ascii) :
  ∀ k p, closing_bracket l k p < p + length l →
         closing_bracket (l ++ r) k p = closing_bracket l k p.
Proof.
  induction l as [|c l IH]; intros k p; simpl; [lia|].
  case_bool_decide; [|case_bool_decide].
  - intros Hlt. apply IH. lia.
  - destruct k as [|k]; [done|]. intros Hlt. apply IH. lia.
  - intros Hlt. apply IH. lia.
Qed.

Lemma drop_past (before m rest : list ascii) :
  drop (length before + length m) (before ++ m ++ rest) = rest.
Proof.
  rewrite (assoc_L (++)), <- length_app. apply drop_app_length.
Qed.

(** ** fix_personalities.py *)

Lemma fix_personalities_at (before body after : list ascii) :
  find start_marker (before ++ start_marker ++ body ++ "]"%char :: after)
    = Some (length before) →
  balanced "[" "]" body →
  fix_personalities (before ++ start_marker ++ body ++ "]"%char :: after)
    = before ++ new_personalities_ts ++ text "
    ];" ++ after.
Proof.
  intros Hfind [Hpre Hend]. unfold fix_personalities. rewrite Hfind.
  rewrite drop_past, closing_bracket_closed by (simpl; done).
  rewrite bool_decide_eq_true_2
    by (rewrite !length_app; simpl; lia).
  rewrite take_app_length. f_equal. f_equal. f_equal.
  replace (length before + length start_marker + length body + 1)
    with (length (before ++ start_marker ++ body ++ ["]"%char]))
    by (rewrite !length_app; simpl; lia).
  replace (before ++ start_marker ++ body ++ "]"%char :: after)
    with ((before ++ start_marker ++ body ++ ["]"%char]) ++ after)
    by by rewrite <- !(assoc_L (++)).
  apply drop_app_length.
Qed.

(** X11. [fix_personalities] does nothing else: a text without the marker,
    and a text in which no "]" after the marker is left unanswered, are
    returned as they are; and whenever the result differs from the text,
    the text was a marker followed by a balanced run and its closing "]",
    and the result is that stretch replaced. *)
Theorem fix_personalities_cases :
  (∀ content : list ascii,
     find start_marker content = None → fix_personalities content = content) ∧
  (∀ before rest : list ascii,
     find start_marker (before ++ start_marker ++ rest) = Some (length before) →
     (∀ n, count_char "]" (take n rest) ≤ count_char "[" (take n rest)) →
     fix_personalities (before ++ start_marker ++ rest)
       = before ++ start_marker ++ rest) ∧
  (∀ content : list ascii,
     fix_personalities content = content ∨
     ∃ before body after,
       content = before ++ start_marker ++ body ++ "]"%char :: after ∧
       balanced "[" "]" body ∧
       fix_personalities content
         = before ++ new_personalities_ts ++ text "
    ];" ++ after).
Proof.
  split; [|split].
  - intros content Hnone. unfold fix_personalities. by rewrite Hnone.
  - intros before rest Hfind Hpre. unfold fix_personalities. rewrite Hfind.
    rewrite drop_past, closing_bracket_unclosed by done.
    rewrite bool_decide_eq_false_2; [done|].
    rewrite !length_app. lia.
  - intros content.
    destruct (find start_marker content) as [i|] eqn:Hfind;
      [|left; unfold fix_personalities; by rewrite Hfind].
    destruct (find_split _ _ _ Hfind) as (before & rest & -> & <-).
    pose proof (closing_bracket_bounds rest 0
                  (length before + length start_marker)) as Hb.
    destruct (decide (closing_bracket rest 0
                        (length before + length start_marker)
                      < length before + length start_marker + length rest))
      as [Hlt|Hge].
    + right.
      destruct (closing_bracket_stop rest 0 _ Hlt)
        as (body & after & -> & _ & Hpre & Hend).
      exists before, body, after. split; [done|].
      assert (Hbal : balanced "[" "]" body) by done.
      split; [done|]. by apply fix_personalities_at.
    + left. unfold fix_personalities. rewrite Hfind, drop_past.
      rewrite bool_decide_eq_false_2; [done|].
      rewrite !length_app. lia.
Qed.

Lemma closing_bracket_inside (mid after : list ascii) (p : nat) :
  closing_bracket (mid ++ ["]"%char]) 0 0 = length mid →
  closing_bracket (mid ++ "]"%char :: after) 0 p = p + length mid.
Proof.
  intros Hscan.
  change (mid ++ "]"%char :: after) with (mid ++ ["]"%char] ++ after).
  rewrite (assoc_L (++)), closing_bracket_app.
  - by rewrite closing_bracket_shift, Hscan.
  - rewrite closing_bracket_shift, Hscan, length_app. simpl. lia.
Qed.

Lemma drop_past_closing (before m mid after : list ascii) (n : nat) (tail : list ascii) :
  length tail = n →
  drop (length before + length m + length mid + n)
    (before ++ m ++ mid ++ tail ++ after) = after.
Proof.
  intros <-.
  replace (length before + length m + length mid + length tail)
    with (length (before ++ m ++ mid ++ tail))
    by (rewrite !length_app; lia).
  replace (before ++ m ++ mid ++ tail ++ after)
    with ((before ++ m ++ mid ++ tail) ++ after)
    by by rewrite <- !(assoc_L (++)).
  apply drop_app_length.
Qed.

Lemma fix_personalities_scanned (before mid after : list ascii) :
  find start_marker (before ++ start_marker ++ mid ++ "]"%char :: after)
    = Some (length before) →
  closing_bracket (mid ++ ["]"%char]) 0 0 = length mid →
  fix_personalities (before ++ start_marker ++ mid ++ "]"%char :: after)
    = before ++ new_personalities_ts ++ text "
    ];" ++ after.
Proof.
  intros Hfind Hscan. unfold fix_personalities. rewrite Hfind.
  rewrite drop_past, closing_bracket_inside by done.
  rewrite bool_decide_eq_true_2 by (rewrite !length_app; simpl; lia).
  rewrite take_app_length. do 3 f_equal.
  by apply (drop_past_closing before start_marker mid after 1 ["]"%char]).
Qed.

Lemma new_personalities_shape :
  ∃ mid,
    new_personalities_ts ++ text "
    ];" = start_marker ++ mid ++ "]"%char :: [";"%char] ∧
    closing_bracket (mid ++ ["]"%char]) 0 0 = length mid.
Proof.
  exists (drop (length start_marker) new_personalities_ts ++ text "
    ").
  split; vm_compute; reflexivity.
Qed.

(** X10. When the text holds the marker [this.personalities = (bracket)],
    first at the end of [before], followed by a run with balanced brackets
    and the "]" that closes it, [fix_personalities] replaces the stretch
    from the marker to that "]" by the new initialization and its own
    closing line, and keeps [before] and everything after the "]" -
    the semicolon that followed it included; the marker is then found at
    the place it was. *)
Theorem fix_personalities_replaces :
  ∀ (before body after : list ascii),
    find start_marker (before ++ start_marker ++ body ++ "]"%char :: after)
      = Some (length before) →
    balanced "[" "]" body →
    fix_personalities (before ++ start_marker ++ body ++ "]"%char :: after)
      = before ++ new_personalities_ts ++ text "
    ];" ++ after ∧
    find start_marker
      (fix_personalities
         (before ++ start_marker ++ body ++ "]"%char :: after))
      = Some (length before).
Proof.
  intros before body after Hfind Hbal.
  rewrite fix_personalities_at by done. split; [done|].
  destruct new_personalities_shape as (mid & Hshape & _).
  rewrite (assoc_L (++) new_personalities_ts), Hshape.
  rewrite <- !(assoc_L (++)).
  by eapply find_tail.
Qed.

(** X12. [fix_personalities] is not idempotent. Run on its own result, it
    finds its own array and replaces it by itself, and since it keeps what
    followed the closing "]" - the ";" of its own closing line - behind a
    closing line that brings another one, every further run leaves the
    text one ";" longer. *)
Theorem fix_personalities_again :
  ∀ (before body after : list ascii),
    find start_marker (before ++ start_marker ++ body ++ "]"%char :: after)
      = Some (length before) →
    balanced "[" "]" body →
    fix_personalities
      (fix_personalities
         (before ++ start_marker ++ body ++ "]"%char :: after))
      = before ++ new_personalities_ts ++ text "
    ];" ++ ";"%char :: after ∧
    length (fix_personalities
              (fix_personalities
                 (before ++ start_marker ++ body ++ "]"%char :: after)))
      = S (length (fix_personalities
                     (before ++ start_marker ++ body ++ "]"%char :: after))).
Proof.
  intros before body after Hfind Hbal.
  rewrite fix_personalities_at by done.
  destruct new_personalities_shape as (mid & Hshape & Hscan).
  assert (Hrun :
    fix_personalities (before ++ new_personalities_ts ++ text "
    ];" ++ after)
    = before ++ new_personalities_ts ++ text "
    ];" ++ ";"%char :: after).
  { rewrite (assoc_L (++) new_personalities_ts), Hshape.
    rewrite <- !(assoc_L (++)).
    change (("]"%char :: [";"%char]) ++ after)
      with ("]"%char :: ";"%char :: after).
    rewrite fix_personalities_scanned; [done|by eapply find_tail|done]. }
  split; [exact Hrun|]. rewrite Hrun, !length_app. simpl. lia.
Qed.

(** ** fix_personality_complete.py *)

Lemma new_init_shape :
  ∃ t mid,
    new_init_ts = Some t ∧
    t = start_marker ++ mid ++ "]"%char :: [";"%char] ∧
    closing_bracket (mid ++ ["]"%char]) 0 0 = length mid.
Proof.
  exists (default [] new_init_ts).
  exists (take (length (default [] new_init_ts) - 24)
            (drop (length start_marker) (default [] new_init_ts))).
  split_and!; vm_compute; reflexivity.
Qed.

Lemma replace_initialization_scanned (before mid after t : list ascii)
    (x : ascii) :
  new_init_ts = Some t →
  find start_marker
    (before ++ start_marker ++ mid ++ "]"%char :: x :: after)
    = Some (length before) →
  closing_bracket (mid ++ ["]"%char]) 0 0 = length mid →
  replace_initialization
    (before ++ start_marker ++ mid ++ "]"%char :: x :: after)
    = Some (before ++ t ++ after).
Proof.
  intros Ht Hfind Hscan. unfold replace_initialization. rewrite Hfind.
  rewrite drop_past, closing_bracket_inside by done.
  rewrite bool_decide_eq_true_2 by (rewrite !length_app; simpl; lia).
  rewrite Ht. simpl. rewrite take_app_length. do 3 f_equal.
  by apply (drop_past_closing before start_marker mid after 2
              ["]"%char; x]).
Qed.

(** X13. When the marker is followed by a balanced run, its closing "]"
    and at least one more character, the replacement of
    fix_personality_complete.py puts the new initialization in place of the
    stretch from the marker to the character after the "]", whatever that
    character is. When the closing "]" is the last character of the text,
    and when the text does not hold the marker, the text stays as it is. *)
Theorem replace_initialization_replaces :
  (∀ (before body after : list ascii) (x : ascii),
     find start_marker
       (before ++ start_marker ++ body ++ "]"%char :: x :: after)
       = Some (length before) →
     balanced "[" "]" body →
     ∃ t, new_init_ts = Some t ∧
          replace_initialization
            (before ++ start_marker ++ body ++ "]"%char :: x :: after)
          = Some (before ++ t ++ after)) ∧
  (∀ (before body : list ascii),
     find start_marker (before ++ start_marker ++ body ++ ["]"%char])
       = Some (length before) →
     balanced "[" "]" body →
     replace_initialization (before ++ start_marker ++ body ++ ["]"%char])
       = Some (before ++ start_marker ++ body ++ ["]"%char])) ∧
  (∀ content : list ascii,
     find start_marker content = None →
     replace_initialization content = Some content).
Proof.
  split; [|split].
  - intros before body after x Hfind [Hpre Hend].
    destruct new_init_shape as (t & mid & Ht & _ & _).
    exists t. split; [done|].
    apply replace_initialization_scanned; [done|done|].
    by rewrite closing_bracket_closed.
  - intros before body Hfind [Hpre Hend]. unfold replace_initialization.
    rewrite Hfind, drop_past, closing_bracket_closed by done.
    rewrite bool_decide_eq_false_2; [done|].
    rewrite !length_app. simpl. lia.
  - intros content Hnone. unfold replace_initialization. by rewrite Hnone.
Qed.

(** X14. The replacement of fix_personality_complete.py never raises, and
    running it on its own result changes nothing: the text it writes holds
    its own array, closed by "];", which a second run replaces by
    itself. *)
Theorem replace_initialization_idempotent :
  ∀ content : list ascii,
    ∃ once,
      replace_initialization content = Some once ∧
      replace_initialization once = Some once.
Proof.
  intros content.
  destruct new_init_shape as (t & mid & Ht & Hshape & Hscan).
  destruct (find start_marker content) as [i|] eqn:Hfind.
  - destruct (find_split _ _ _ Hfind) as (before & rest & -> & <-).
    destruct (decide
                (closing_bracket rest 0 (length before + length start_marker)
                   + 2 ≤ length (before ++ start_marker ++ rest)))
      as [Hle|Hgt].
    + exists (before ++ t
                ++ drop (closing_bracket rest 0
                           (length before + length start_marker) + 2)
                     (before ++ start_marker ++ rest)).
      split.
      * unfold replace_initialization.
        rewrite Hfind, drop_past, bool_decide_eq_true_2 by done.
        rewrite Ht. by rewrite take_app_length.
      * rewrite Hshape at 1. rewrite <- !(assoc_L (++)).
        match goal with
        | |- context [("]"%char :: [";"%char]) ++ ?r] =>
            change (("]"%char :: [";"%char]) ++ r)
              with ("]"%char :: ";"%char :: r)
        end.
        erewrite replace_initialization_scanned;
          [reflexivity|exact Ht|by eapply find_tail|exact Hscan].
    + exists (before ++ start_marker ++ rest).
      assert (Hsame : replace_initialization (before ++ start_marker ++ rest)
                      = Some (before ++ start_marker ++ rest)).
      { unfold replace_initialization.
        by rewrite Hfind, drop_past, bool_decide_eq_false_2. }
      done.
  - exists content.
    assert (Hsame : replace_initialization content = Some content).
    { unfold replace_initialization. by rewrite Hfind. }
    done.
Qed.

(** ** fix_session_interface.py *)

Lemma closing_brace_skip (head rest : list ascii) :
  free_of "{" head → free_of "}" head →
  ∀ k p, closing_brace (head ++ rest) k p
         = closing_brace rest k (p + length head).
Proof.
  induction head as [|c head IH]; intros Ho Hc k p; simpl.
  - f_equal. lia.
  - apply Forall_cons in Ho as [Ho1 Ho], Hc as [Hc1 Hc].
    rewrite !bool_decide_eq_false_2 by done.
    rewrite IH by done. f_equal. lia.
Qed.

Lemma closing_brace_closed (inner after : list ascii) :
  ∀ j p,
    (∀ n, count_char "}" (take n inner) ≤ j + count_char "{" (take n inner)) →
    j + count_char "{" inner = count_char "}" inner →
    closing_brace (inner ++ "}"%char :: after) (Z.of_nat (S j)) p
      = p + length inner.
Proof.
  induction inner as [|c inner IH]; intros j p Hpre Hend.
  - unfold count_char in Hend. simpl in Hend.
    rewrite Nat.add_0_r in Hend. subst j. simpl. lia.
  - simpl closing_brace. simpl app.
    change (closing_brace (c :: inner ++ "}"%char :: after) (Z.of_nat (S j)) p)
      with (if bool_decide (c = "{"%char)
            then closing_brace (inner ++ "}"%char :: after)
                   (Z.of_nat (S j) + 1) (S p)
            else if bool_decide (c = "}"%char)
                 then if bool_decide (Z.of_nat (S j) - 1 = 0)%Z then p
                      else closing_brace (inner ++ "}"%char :: after)
                             (Z.of_nat (S j) - 1) (S p)
                 else closing_brace (inner ++ "}"%char :: after)
                        (Z.of_nat (S j)) (S p)).
    case_bool_decide as Hopen; [|case_bool_decide as Hclose].
    + subst c.
      replace (Z.of_nat (S j) + 1)%Z with (Z.of_nat (S (S j))) by lia.
      rewrite IH; [simpl; lia| |].
      * intros n. specialize (Hpre (S n)). simpl take in Hpre.
        rewrite count_char_cons_eq, count_char_cons_ne in Hpre by done. lia.
      * rewrite count_char_cons_eq, count_char_cons_ne in Hend by done. lia.
    + subst c. destruct j as [|j].
      * specialize (Hpre 1). vm_compute in Hpre. lia.
      * rewrite bool_decide_eq_false_2 by lia.
        replace (Z.of_nat (S (S j)) - 1)%Z with (Z.of_nat (S j)) by lia.
        rewrite IH; [simpl; lia| |].
        -- intros n. specialize (Hpre (S n)). simpl take in Hpre.
           rewrite count_char_cons_eq, count_char_cons_ne in Hpre by done.
           lia.
        -- rewrite count_char_cons_eq, count_char_cons_ne in Hend by done.
           lia.
    + rewrite IH; [simpl; lia| |].
      * intros n. specialize (Hpre (S n)). simpl take in Hpre.
        rewrite !count_char_cons_ne in Hpre by done. lia.
      * rewrite !count_char_cons_ne in Hend by done. lia.
Qed.

(** A scan that stops inside the text stopped on a closing brace. *)
Lemma closing_brace_stop (rest : list ascii) :
  ∀ k p,
    closing_brace rest k p < p + length rest →
    ∃ b a, rest = b ++ "}"%char :: a ∧ closing_brace rest k p = p + length b.
Proof.
  induction rest as [|c rest IH]; intros k p; simpl; [lia|].
  case_bool_decide as Hopen; [|case_bool_decide as Hclose].
  - intros Hlt. destruct (IH (k + 1)%Z (S p)) as (b & a & -> & Heq); [lia|].
    exists (c :: b), a. split; [done|]. simpl. lia.
  - subst c. case_bool_decide as Hzero.
    + intros _. exists [], rest. split; [done|]. simpl. lia.
    + intros Hlt.
      destruct (IH (k - 1)%Z (S p)) as (b & a & -> & Heq); [lia|].
      exists ("}"%char :: b), a. split; [done|]. simpl. lia.
  - intros Hlt. destruct (IH k (S p)) as (b & a & -> & Heq); [lia|].
    exists (c :: b), a. split; [done|]. simpl. lia.
Qed.

Lemma closing_brace_bounds (rest : list ascii) :
  ∀ k p, p ≤ closing_brace rest k p ≤ p + length rest.
Proof.
  induction rest as [|c rest IH]; intros k p; simpl; [lia|].
  case_bool_decide; [|case_bool_decide].
  - specialize (IH (k + 1)%Z (S p)). lia.
  - case_bool_decide; [lia|]. specialize (IH (k - 1)%Z (S p)). lia.
  - specialize (IH k (S p)). lia.
Qed.

Lemma gate_contains (sub s : list ascii) :
  bool_decide (find_index sub s + Z.of_nat (length sub)
               > Z.of_nat (length sub) - 1)%Z
  = contains sub s.
Proof.
  unfold find_index, contains. destruct (find sub s) as [i|].
  - apply bool_decide_eq_true_2. lia.
  - apply bool_decide_eq_false_2. lia.
Qed.

Lemma add_getCurrentSession_cases (content : list ascii) :
  add_getCurrentSession content = content ∨
  ∃ b a,
    content = b ++ "}"%char :: a ∧
    add_getCurrentSession content = b ++ "}"%char :: new_method ++ a.
Proof.
  unfold add_getCurrentSession.
  destruct (contains (text "getCurrentSession()") content); [by left|].
  cbn [negb]. rewrite gate_contains.
  destruct (contains (text "this.saveToLocalStorage();") content);
    [|by left].
  destruct (find (text "async startWritingSession(") content) as [i|] eqn:Hfind;
    [|by left].
  case_bool_decide as Hlt; [|by left]. right.
  destruct (find_split _ _ _ Hfind) as (before & rest & Hc & Hi).
  assert (Hdrop : content = take i content ++ drop i content)
    by by rewrite take_drop.
  pose proof (closing_brace_bounds (drop i content) 0 i) as Hb.
  destruct (closing_brace_stop (drop i content) 0 i) as (b & a & Hrest & Hpos).
  { rewrite length_drop. lia. }
  rewrite Hpos.
  assert (Hwhole : content = (take i content ++ b) ++ "}"%char :: a).
  { rewrite <- (assoc_L (++)), <- Hrest. done. }
  assert (Hlen : i + length b + 1 = length ((take i content ++ b) ++ ["}"%char])).
  { rewrite !length_app, length_take. simpl.
    assert (i ≤ length content) by (rewrite Hc, length_app; lia). lia. }
  exists (take i content ++ b), a. split; [done|].
  rewrite Hlen. clear Hlen Hdrop Hrest Hpos Hb Hlt Hfind.
  remember (take i content ++ b) as pre eqn:Hpre. clear Hpre.
  rewrite Hwhole.
  replace (pre ++ "}"%char :: a) with ((pre ++ ["}"%char]) ++ a)
    by by rewrite <- !(assoc_L (++)).
  rewrite take_app_length, drop_app_length.
  by rewrite <- !(assoc_L (++)).
Qed.

Lemma new_method_names_itself :
  contains (text "getCurrentSession()") new_method = true.
Proof. vm_compute. reflexivity. Qed.

Lemma session_marker_free :
  free_of "{" (text "async startWritingSession(") ∧
  free_of "}" (text "async startWritingSession(").
Proof. split; apply (bool_decide_unpack _); vm_compute; exact I. Qed.

(** X15. In a text that does not name [getCurrentSession()] yet and holds
    [this.saveToLocalStorage();] somewhere, with
    [async startWritingSession(] first at the end of [before], followed by
    a stretch without braces, an opening brace, a run with balanced braces
    and the brace that closes it, the script puts the text of the new
    method right after that closing brace and changes nothing else. The
    braces are all the scan looks at: the first group that closes is taken
    for the body of the method. *)
Theorem add_getCurrentSession_inserts :
  ∀ (before head inner after : list ascii),
    contains (text "getCurrentSession()")
      (before ++ text "async startWritingSession(" ++ head
         ++ "{"%char :: inner ++ "}"%char :: after) = false →
    contains (text "this.saveToLocalStorage();")
      (before ++ text "async startWritingSession(" ++ head
         ++ "{"%char :: inner ++ "}"%char :: after) = true →
    find (text "async startWritingSession(")
      (before ++ text "async startWritingSession(" ++ head
         ++ "{"%char :: inner ++ "}"%char :: after) = Some (length before) →
    free_of "{" head → free_of "}" head →
    balanced "{" "}" inner →
    add_getCurrentSession
      (before ++ text "async startWritingSession(" ++ head
         ++ "{"%char :: inner ++ "}"%char :: after)
    = before ++ text "async startWritingSession(" ++ head
        ++ "{"%char :: inner ++ "}"%char :: new_method ++ after.
Proof.
  intros before head inner after Hnew Hsave Hfind Ho Hc [Hpre Hend].
  destruct session_marker_free as [Hmo Hmc].
  remember (text "async startWritingSession(") as M eqn:HM.
  unfold add_getCurrentSession. rewrite Hnew. cbn [negb].
  rewrite gate_contains, Hsave. rewrite <- HM, Hfind.
  rewrite drop_app_length.
  rewrite (assoc_L (++) M head).
  rewrite closing_brace_skip by (apply Forall_app; done).
  change (closing_brace ("{"%char :: inner ++ "}"%char :: after) 0
            (length before + length (M ++ head)))
    with (closing_brace (inner ++ "}"%char :: after) (Z.of_nat 1)
            (S (length before + length (M ++ head)))).
  rewrite closing_brace_closed by done.
  assert (Hlen : S (length before + length (M ++ head)) + length inner + 1
                 = length (before ++ (M ++ head) ++ "{"%char :: inner
                             ++ ["}"%char])).
  { rewrite !length_app. simpl. rewrite length_app. simpl. lia. }
  rewrite bool_decide_eq_true_2
    by (rewrite !length_app; simpl; rewrite !length_app; simpl; lia).
  rewrite Hlen.
  replace (before ++ (M ++ head) ++ "{"%char :: inner ++ "}"%char :: after)
    with ((before ++ (M ++ head) ++ "{"%char :: inner ++ ["}"%char]) ++ after)
    by (rewrite <- !(assoc_L (++)); simpl;
        by rewrite <- !(assoc_L (++))).
  rewrite take_app_length, drop_app_length.
  rewrite <- !(assoc_L (++)). simpl. by rewrite <- !(assoc_L (++)).
Qed.

(** X16. Adding [getCurrentSession] is idempotent: a text that went through
    it holds either what it held before or the new method, which names
    [getCurrentSession()], and in both cases a second pass returns it as it
    is. *)
Theorem add_getCurrentSession_idempotent :
  ∀ content : list ascii,
    add_getCurrentSession (add_getCurrentSession content)
      = add_getCurrentSession content.
Proof.
  intros content.
  destruct (add_getCurrentSession_cases content)
    as [Hsame|(b & a & Hc & Hadd)].
  - by rewrite !Hsame.
  - rewrite Hadd. unfold add_getCurrentSession at 1.
    change (b ++ "}"%char :: new_method ++ a)
      with (b ++ ["}"%char] ++ new_method ++ a).
    rewrite (assoc_L (++) b).
    rewrite contains_inside by apply new_method_names_itself.
    done.
Qed.

(** X17. The step only ever inserts: it returns the text as it is when the
    text already names [getCurrentSession()], when it holds no
    [this.saveToLocalStorage();], and when it holds no
    [async startWritingSession(]; in every case the result is either the
    text itself or the text with the new method put right after one of its
    closing braces, nothing of it removed. *)
Theorem add_getCurrentSession_only_inserts :
  (∀ content : list ascii,
     contains (text "getCurrentSession()") content = true →
     add_getCurrentSession content = content) ∧
  (∀ content : list ascii,
     contains (text "this.saveToLocalStorage();") content = false →
     add_getCurrentSession content = content) ∧
  (∀ content : list ascii,
     find (text "async startWritingSession(") content = None →
     add_getCurrentSession content = content) ∧
  (∀ content : list ascii,
     add_getCurrentSession content = content ∨
     ∃ b a,
       content = b ++ "}"%char :: a ∧
       add_getCurrentSession content = b ++ "}"%char :: new_method ++ a).
Proof.
  split_and!.
  - intros content H. unfold add_getCurrentSession. by rewrite H.
  - intros content H. unfold add_getCurrentSession.
    destruct (contains (text "getCurrentSession()") content); [done|].
    cbn [negb]. by rewrite gate_contains, H.
  - intros content H. unfold add_getCurrentSession.
    destruct (contains (text "getCurrentSession()") content); [done|].
    cbn [negb]. rewrite H. by destruct (bool_decide _).
  - apply add_getCurrentSession_cases.
Qed.

(** ** The further statements at sample inputs *)

Lemma surplus_sound (open close : ascii) (s : list ascii) :
  open ≠ close →
  ∀ k m, surplus open close s k = Some m →
    (∀ n, count_char close (take n s) ≤ k + count_char open (take n s)) ∧
    k + count_char open s = m + count_char close s.
Proof.
  intros Hne. induction s as [|x s IH]; intros k m; simpl.
  - intros [= <-]. split; [|unfold count_char; simpl; lia].
    intros n. rewrite take_nil. unfold count_char. simpl. lia.
  - case_bool_decide as Ho; [|case_bool_decide as Hc].
    + subst x. intros Hs. destruct (IH _ _ Hs) as [Hpre Hend]. split.
      * intros [|n]; simpl; [unfold count_char; simpl; lia|].
        rewrite count_char_cons_eq, count_char_cons_ne by done.
        specialize (Hpre n). lia.
      * rewrite count_char_cons_eq, count_char_cons_ne by done. lia.
    + subst x. destruct k as [|k]; [done|].
      intros Hs. destruct (IH _ _ Hs) as [Hpre Hend]. split.
      * intros [|n]; simpl; [unfold count_char; simpl; lia|].
        rewrite count_char_cons_eq, count_char_cons_ne by done.
        specialize (Hpre n). lia.
      * rewrite count_char_cons_eq, count_char_cons_ne by done. lia.
    + intros Hs. destruct (IH _ _ Hs) as [Hpre Hend]. split.
      * intros [|n]; simpl; [unfold count_char; simpl; lia|].
        rewrite !count_char_cons_ne by done. specialize (Hpre n). lia.
      * rewrite !count_char_cons_ne by done. lia.
Qed.

Lemma surplus_balanced (open close : ascii) (s : list ascii) :
  open ≠ close → surplus open close s 0 = Some 0 → balanced open close s.
Proof.
  intros Hne Hs. destruct (surplus_sound open close s Hne 0 0 Hs) as [H1 H2].
  split; [exact H1|]. lia.
Qed.

Lemma create_appends_witness :
  ("p1" ∈ projectIds (storage sampleWorld) ∧
   ∃ x w',
     createStory sampleClock sampleIds (mkStoryData "Chapter 3" None "p1")
       sampleWorld = (x, w') ∧
     Story.id x = "id0" ∧
     allStoryIds (storage w') = ["s1"; "s2"; "id0"]) ∧
  ("p2" ∈ projectIds (storage sampleWorld) ∧
   ∃ x w',
     createCharacter sampleClock sampleIds (mkCharacterData "Muse" None "p2")
       sampleWorld = (x, w') ∧
     Character.id x = "id0" ∧
     allCharacterIds (storage w') = ["c1"; "id0"]).
Proof.
  assert (H1 : "p1" ∈ projectIds (storage sampleWorld)) by by_evaluation.
  assert (H2 : "p2" ∈ projectIds (storage sampleWorld)) by by_evaluation.
  split; split; [exact H1| |exact H2|].
  - destruct (proj1 (create_appends sampleClock sampleIds)
                (mkStoryData "Chapter 3" None "p1") sampleWorld H1)
      as (pre & p & post & x & w' & _ & _ & _ & Hrun & Hid & _).
    exists x, w'. split; [exact Hrun|]. split; [exact Hid|].
    vm_compute in Hrun. injection Hrun as _ <-. reflexivity.
  - destruct (proj2 (create_appends sampleClock sampleIds)
                (mkCharacterData "Muse" None "p2") sampleWorld H2)
      as (pre & p & post & x & w' & _ & _ & _ & Hrun & Hid & _).
    exists x, w'. split; [exact Hrun|]. split; [exact Hid|].
    vm_compute in Hrun. injection Hrun as _ <-. reflexivity.
Defined.

Lemma create_then_delete_witness :
  ("p1" ∈ projectIds (storage sampleWorld) ∧
   (sampleIds (issued sampleWorld) ∉ allStoryIds (storage sampleWorld)) ∧
   ∃ x w1 w2,
     createStory sampleClock sampleIds (mkStoryData "Chapter 3" None "p1")
       sampleWorld = (x, w1) ∧
     deleteStory sampleClock (Story.id x) w1 = (true, w2) ∧
     storiesOf <$> storage w2 = [[chapter1; chapter2]; []]) ∧
  ("p2" ∈ projectIds (storage sampleWorld) ∧
   (sampleIds (issued sampleWorld) ∉ allCharacterIds (storage sampleWorld)) ∧
   ∃ x w1 w2,
     createCharacter sampleClock sampleIds (mkCharacterData "Muse" None "p2")
       sampleWorld = (x, w1) ∧
     deleteCharacter sampleClock (Character.id x) w1 = (true, w2) ∧
     charactersOf <$> storage w2 = [[hero]; []]).
Proof.
  assert (H1 : "p1" ∈ projectIds (storage sampleWorld)) by by_evaluation.
  assert (H2 : "p2" ∈ projectIds (storage sampleWorld)) by by_evaluation.
  assert (F1 : sampleIds (issued sampleWorld)
               ∉ allStoryIds (storage sampleWorld)) by by_evaluation.
  assert (F2 : sampleIds (issued sampleWorld)
               ∉ allCharacterIds (storage sampleWorld)) by by_evaluation.
  split.
  - split; [exact H1|]. split; [exact F1|].
    destruct (proj1 (create_then_delete sampleClock sampleIds)
                (mkStoryData "Chapter 3" None "p1") sampleWorld H1 F1)
      as (x & w1 & w2 & Hc & Hd & Hs & _).
    exists x, w1, w2. split; [exact Hc|]. split; [exact Hd|].
    rewrite Hs. reflexivity.
  - split; [exact H2|]. split; [exact F2|].
    destruct (proj2 (create_then_delete sampleClock sampleIds)
                (mkCharacterData "Muse" None "p2") sampleWorld H2 F2)
      as (x & w1 & w2 & Hc & Hd & Hs & _).
    exists x, w1, w2. split; [exact Hc|]. split; [exact Hd|].
    rewrite Hs. reflexivity.
Defined.

Lemma identifiers_stay_unique_witness :
  NoDup (allStoryIds (storage sampleWorld)) ∧
  (sampleIds (issued sampleWorld) ∉ allStoryIds (storage sampleWorld)) ∧
  NoDup (allStoryIds (storage (snd (deleteStory sampleClock "s1" sampleWorld)))) ∧
  allStoryIds
    (storage (snd (updateStory sampleClock "s1" (titleOnly "Opening")
                     sampleWorld)))
    = allStoryIds (storage sampleWorld) ∧
  NoDup (allStoryIds
           (storage (snd (createStory sampleClock sampleIds
                            (mkStoryData "Chapter 3" None "p1")
                            sampleWorld)))) ∧
  NoDup (allCharacterIds (storage sampleWorld)) ∧
  (sampleIds (issued sampleWorld) ∉ allCharacterIds (storage sampleWorld)) ∧
  NoDup (allCharacterIds
           (storage (snd (deleteCharacter sampleClock "c1" sampleWorld)))) ∧
  allCharacterIds
    (storage (snd (updateCharacter sampleClock "c1" Character.no_updates
                     sampleWorld)))
    = allCharacterIds (storage sampleWorld) ∧
  NoDup (allCharacterIds
           (storage (snd (createCharacter sampleClock sampleIds
                            (mkCharacterData "Muse" None "p2")
                            sampleWorld)))).
Proof.
  assert (N1 : NoDup (allStoryIds (storage sampleWorld))) by by_evaluation.
  assert (N2 : NoDup (allCharacterIds (storage sampleWorld))) by by_evaluation.
  assert (F1 : sampleIds (issued sampleWorld)
               ∉ allStoryIds (storage sampleWorld)) by by_evaluation.
  assert (F2 : sampleIds (issued sampleWorld)
               ∉ allCharacterIds (storage sampleWorld)) by by_evaluation.
  destruct (identifiers_stay_unique sampleClock sampleIds)
    as (Sd & Su & Sc & Cd & Cu & Cc).
  split_and!.
  - exact N1.
  - exact F1.
  - exact (Sd sampleWorld "s1" N1).
  - exact (Su sampleWorld "s1" (titleOnly "Opening") eq_refl).
  - exact (Sc sampleWorld (mkStoryData "Chapter 3" None "p1") N1 F1).
  - exact N2.
  - exact F2.
  - exact (Cd sampleWorld "c1" N2).
  - exact (Cu sampleWorld "c1" Character.no_updates eq_refl).
  - exact (Cc sampleWorld (mkCharacterData "Muse" None "p2") N2 F2).
Defined.

Lemma updateCharacter_spec_witness :
  ("c1" ∈ allCharacterIds (storage sampleWorld) ∧
   ∃ c' w',
     updateCharacter sampleClock "c1" (renameOnly "Heroine") sampleWorld
       = (Some c', w') ∧
     c' = Character.mk "c1" "Heroine" "" "p1" "supporting" None "" "" "" ""
            30 1000 ∧
     storage w'
       = [Project.mk "p1" "Novel" "A tale" 5 1001 40 7
            (Some [chapter1; chapter2]) (Some [c']); poems] ∧
     saves w' = 1%nat ∧ events w' = []) ∧
  (("zz" ∉ allCharacterIds (storage sampleWorld)) ∧
   updateCharacter sampleClock "zz" (renameOnly "Heroine") sampleWorld
     = (None, sampleWorld)).
Proof.
  assert (Hin : "c1" ∈ allCharacterIds (storage sampleWorld)) by by_evaluation.
  assert (Hno : "zz" ∉ allCharacterIds (storage sampleWorld)) by by_evaluation.
  split; split; [exact Hin| |exact Hno|].
  - destruct (proj1 (updateCharacter_spec sampleClock) sampleWorld "c1"
                (renameOnly "Heroine") Hin)
      as (pre & p & post & cpre & c & cpost & c' & p' & _ & _ & _ & _ & _
          & _ & _ & Hrun).
    eexists _, _. split; [exact Hrun|].
    assert (Hc : updateCharacter sampleClock "c1" (renameOnly "Heroine")
                   sampleWorld
                 = (Some (Character.mk "c1" "Heroine" "" "p1" "supporting"
                            None "" "" "" "" 30 1000),
                    mkWorld
                      [Project.mk "p1" "Novel" "A tale" 5 1001 40 7
                         (Some [chapter1; chapter2])
                         (Some [Character.mk "c1" "Heroine" "" "p1"
                                  "supporting" None "" "" "" "" 30 1000]);
                       poems] 1 [] 2 0))
      by (vm_compute; reflexivity).
    rewrite Hc in Hrun.
    pose proof (f_equal fst Hrun) as Hs.
    pose proof (f_equal (λ r, storage (snd r)) Hrun) as Hst.
    simpl in Hs, Hst. injection Hs as Hs.
    simpl. rewrite <- Hst, <- Hs. by split_and!.
  - exact (proj2 (updateCharacter_spec sampleClock) sampleWorld "zz"
             (renameOnly "Heroine") Hno).
Defined.

Lemma sampleArray_balanced : balanced "[" "]" sampleArray.
Proof. apply surplus_balanced; [done|]. vm_compute. reflexivity. Qed.

Lemma sampleInner_balanced : balanced "{" "}" sampleInner.
Proof. apply surplus_balanced; [done|]. vm_compute. reflexivity. Qed.

Lemma fix_personalities_replaces_witness :
  find start_marker
    (sampleBefore ++ start_marker ++ sampleArray ++ "]"%char :: sampleAfter)
    = Some (length sampleBefore) ∧
  balanced "[" "]" sampleArray ∧
  fix_personalities
    (sampleBefore ++ start_marker ++ sampleArray ++ "]"%char :: sampleAfter)
    = sampleBefore ++ new_personalities_ts ++ text "
    ];" ++ sampleAfter.
Proof.
  assert (Hfind : find start_marker
                    (sampleBefore ++ start_marker ++ sampleArray
                       ++ "]"%char :: sampleAfter)
                  = Some (length sampleBefore)) by (vm_compute; reflexivity).
  split; [exact Hfind|]. split; [exact sampleArray_balanced|].
  exact (proj1 (fix_personalities_replaces sampleBefore sampleArray
                  sampleAfter Hfind sampleArray_balanced)).
Defined.

Lemma fix_personalities_cases_witness :
  (find start_marker sampleBefore = None ∧
   fix_personalities sampleBefore = sampleBefore) ∧
  (find start_marker (sampleBefore ++ start_marker ++ sampleArray)
     = Some (length sampleBefore) ∧
   fix_personalities (sampleBefore ++ start_marker ++ sampleArray)
     = sampleBefore ++ start_marker ++ sampleArray).
Proof.
  destruct fix_personalities_cases as (Hnone & Hopen & _).
  assert (H1 : find start_marker sampleBefore = None)
    by (vm_compute; reflexivity).
  assert (H2 : find start_marker (sampleBefore ++ start_marker ++ sampleArray)
               = Some (length sampleBefore)) by (vm_compute; reflexivity).
  split; split; [exact H1|exact (Hnone _ H1)|exact H2|].
  apply (Hopen sampleBefore sampleArray H2).
  destruct sampleArray_balanced as [Hpre _]. exact Hpre.
Defined.

Lemma fix_personalities_again_witness :
  find start_marker
    (sampleBefore ++ start_marker ++ sampleArray ++ "]"%char :: sampleAfter)
    = Some (length sampleBefore) ∧
  balanced "[" "]" sampleArray ∧
  fix_personalities
    (fix_personalities
       (sampleBefore ++ start_marker ++ sampleArray
          ++ "]"%char :: sampleAfter))
    = sampleBefore ++ new_personalities_ts ++ text "
    ];" ++ ";"%char :: sampleAfter.
Proof.
  assert (Hfind : find start_marker
                    (sampleBefore ++ start_marker ++ sampleArray
                       ++ "]"%char :: sampleAfter)
                  = Some (length sampleBefore)) by (vm_compute; reflexivity).
  split; [exact Hfind|]. split; [exact sampleArray_balanced|].
  exact (proj1 (fix_personalities_again sampleBefore sampleArray sampleAfter
                  Hfind sampleArray_balanced)).
Defined.

Lemma replace_initialization_replaces_witness :
  (find start_marker
     (sampleBefore ++ start_marker ++ sampleArray
        ++ "]"%char :: "010"%char :: sampleAfter)
     = Some (length sampleBefore) ∧
   balanced "[" "]" sampleArray ∧
   ∃ t, new_init_ts = Some t ∧
        replace_initialization
          (sampleBefore ++ start_marker ++ sampleArray
             ++ "]"%char :: "010"%char :: sampleAfter)
        = Some (sampleBefore ++ t ++ sampleAfter)) ∧
  (find start_marker (sampleBefore ++ start_marker ++ sampleArray ++ ["]"%char])
     = Some (length sampleBefore) ∧
   replace_initialization
     (sampleBefore ++ start_marker ++ sampleArray ++ ["]"%char])
     = Some (sampleBefore ++ start_marker ++ sampleArray ++ ["]"%char])) ∧
  (find start_marker sampleBefore = None ∧
   replace_initialization sampleBefore = Some sampleBefore).
Proof.
  destruct replace_initialization_replaces as (Hrep & Hlast & Hnone).
  assert (H1 : find start_marker
                 (sampleBefore ++ start_marker ++ sampleArray
                    ++ "]"%char :: "010"%char :: sampleAfter)
               = Some (length sampleBefore)) by (vm_compute; reflexivity).
  assert (H2 : find start_marker
                 (sampleBefore ++ start_marker ++ sampleArray ++ ["]"%char])
               = Some (length sampleBefore)) by (vm_compute; reflexivity).
  assert (H3 : find start_marker sampleBefore = None)
    by (vm_compute; reflexivity).
  split; [|split].
  - split; [exact H1|]. split; [exact sampleArray_balanced|].
    exact (Hrep _ _ _ _ H1 sampleArray_balanced).
  - split; [exact H2|]. exact (Hlast _ _ H2 sampleArray_balanced).
  - split; [exact H3|]. exact (Hnone _ H3).
Defined.

Lemma add_getCurrentSession_inserts_witness :
  contains (text "getCurrentSession()")
    (sampleClassStart ++ text "async startWritingSession(" ++ sampleHead
       ++ "{"%char :: sampleInner ++ "}"%char :: sampleClassEnd) = false ∧
  contains (text "this.saveToLocalStorage();")
    (sampleClassStart ++ text "async startWritingSession(" ++ sampleHead
       ++ "{"%char :: sampleInner ++ "}"%char :: sampleClassEnd) = true ∧
  free_of "{" sampleHead ∧ free_of "}" sampleHead ∧
  balanced "{" "}" sampleInner ∧
  add_getCurrentSession
    (sampleClassStart ++ text "async startWritingSession(" ++ sampleHead
       ++ "{"%char :: sampleInner ++ "}"%char :: sampleClassEnd)
  = sampleClassStart ++ text "async startWritingSession(" ++ sampleHead
      ++ "{"%char :: sampleInner ++ "}"%char :: new_method ++ sampleClassEnd.
Proof.
  assert (H1 : contains (text "getCurrentSession()")
                 (sampleClassStart ++ text "async startWritingSession("
                    ++ sampleHead ++ "{"%char :: sampleInner
                    ++ "}"%char :: sampleClassEnd) = false)
    by (vm_compute; reflexivity).
  assert (H2 : contains (text "this.saveToLocalStorage();")
                 (sampleClassStart ++ text "async startWritingSession("
                    ++ sampleHead ++ "{"%char :: sampleInner
                    ++ "}"%char :: sampleClassEnd) = true)
    by (vm_compute; reflexivity).
  assert (H3 : find (text "async startWritingSession(")
                 (sampleClassStart ++ text "async startWritingSession("
                    ++ sampleHead ++ "{"%char :: sampleInner
                    ++ "}"%char :: sampleClassEnd)
               = Some (length sampleClassStart))
    by (vm_compute; reflexivity).
  assert (H4 : free_of "{" sampleHead) by by_evaluation.
  assert (H5 : free_of "}" sampleHead) by by_evaluation.
  split_and!; [exact H1|exact H2|exact H4|exact H5
              |exact sampleInner_balanced|].
  exact (add_getCurrentSession_inserts sampleClassStart sampleHead
           sampleInner sampleClassEnd H1 H2 H3 H4 H5 sampleInner_balanced).
Defined.

Lemma add_getCurrentSession_only_inserts_witness :
  (contains (text "getCurrentSession()") new_method = true ∧
   add_getCurrentSession new_method = new_method) ∧
  (contains (text "this.saveToLocalStorage();") sampleClassStart = false ∧
   add_getCurrentSession sampleClassStart = sampleClassStart) ∧
  (find (text "async startWritingSession(") sampleInner = None ∧
   add_getCurrentSession sampleInner = sampleInner).
Proof.
  destruct add_getCurrentSession_only_inserts as (Hnamed & Hsave & Hstart & _).
  assert (H1 : contains (text "getCurrentSession()") new_method = true)
    by (vm_compute; reflexivity).
  assert (H2 : contains (text "this.saveToLocalStorage();") sampleClassStart
               = false) by (vm_compute; reflexivity).
  assert (H3 : find (text "async startWritingSession(") sampleInner = None)
    by (vm_compute; reflexivity).
  split; [|split]; split;
    [exact H1|exact (Hnamed _ H1)|exact H2|exact (Hsave _ H2)
    |exact H3|exact (Hstart _ H3)].
Defined.
